(** * The colour system of textual's design module

    A shallow embedding of [src/textual/design.py]: the [ColorProperty]
    descriptor, the [ColorSystem] class with its [shades] property and its
    [generate] method, and the properties the specification states about
    them.

    Python floats are IEEE 754 binary64 numbers and are modelled by Rocq's
    primitive floats, so that [luminosity_spread / 1.5], [n * luminosity_step]
    and [fade * 0.1 + 0.15] round exactly as they do in the interpreter.
    The dictionary [colors] is a [gmap string string]; assignment
    [colors[k] = v] is [<[k:=v]>]. *)

From Stdlib Require Import ZArith List String Ascii Floats Uint63 DecimalString.
From stdpp Require Import gmap strings list.

Set Warnings "-inexact-float".

Local Open Scope string_scope.
Local Open Scope Z_scope.

(** ** Python values *)

(** [str(n)] for an integer. *)
Definition str (n : Z) : string := NilZero.string_of_int (Z.to_int n).

(** Conversion of an integer operand in mixed arithmetic ([n * 0.5]).
    Exact for the magnitudes used here (below 2^53). *)
Definition float_of_int (n : Z) : float :=
  if n <? 0 then PrimFloat.opp (PrimFloat.of_uint63 (Uint63.of_Z (- n)))
  else PrimFloat.of_uint63 (Uint63.of_Z n).

(** [range(a, b)]. *)
Definition range (a b : Z) : list Z := seqZ a (b - a).

(** Exceptions that the modelled code can raise. *)
Inductive exn : Type :=
  | ColorParseError (text : string)
  | AttributeError (name : string).

Inductive result (A : Type) : Type :=
  | Ok (a : A)
  | Raise (e : exn).
Arguments Ok {A} a.
Arguments Raise {A} e.

#[global] Instance result_ret : MRet result := fun _ a => Ok a.
#[global] Instance result_bind : MBind result := fun _ _ f m =>
  match m with Ok a => f a | Raise e => Raise e end.
#[global] Instance result_fmap : FMap result := fun _ _ f m =>
  match m with Ok a => Ok (f a) | Raise e => Raise e end.

Definition raises {A} (m : result A) : bool :=
  match m with Ok _ => false | Raise _ => true end.

(** ** The interface of [Color]

    [design.py] imports [Color] and [WHITE] from [.color], which is not among
    the sources; only the members it uses are listed, with the signatures
    the specification gives them.  [parse] returns [None] where
    [Color.parse] raises; the other operations are pure and return a new
    value. *)
Class ColorAPI (Color : Type) : Type := {
  parse : string -> option Color;
  css : Color -> string;
  hex : Color -> string;
  blend : Color -> Color -> float -> Color;
  lighten : Color -> float -> Color;
  clamped : Color -> Color;
  get_contrast_text : Color -> float -> Color;
  WHITE : Color;
}.

(** ** Module constants *)

Definition NUMBER_OF_SHADES : Z := 3.

Definition DEFAULT_DARK_BACKGROUND : string := "#000000".
Definition DEFAULT_DARK_SURFACE : string := "#121212".
Definition DEFAULT_LIGHT_BACKGROUND : string := "#f5f5f5".
Definition DEFAULT_LIGHT_SURFACE : string := "#efefef".

(** ** [ColorSystem] objects *)

(** The instance attributes written by [__init__]. *)
Record ColorSystem : Type := {
  _primary : string;
  _secondary : option string;
  _warning : option string;
  _error : option string;
  _success : option string;
  _accent1 : option string;
  _accent2 : option string;
  _background : option string;
  _surface : option string;
}.

(** [ColorSystem.__init__]: every argument is stored as it is given. *)
Definition __init__ (primary : string)
    (secondary warning error success accent1 accent2 background surface : option string)
    : ColorSystem :=
  {| _primary := primary; _secondary := secondary; _warning := warning;
     _error := error; _success := success; _accent1 := accent1;
     _accent2 := accent2; _background := background; _surface := surface |}.

(** The eight class attributes that are [ColorProperty] descriptors. *)
Inductive attr : Type :=
  | Secondary | Warning | Error | Success | Accent1 | Accent2 | Surface | Background.

#[global] Instance attr_eq_dec : EqDecision attr.
Proof. solve_decision. Defined.

Definition all_attrs : list attr :=
  [Secondary; Warning; Error; Success; Accent1; Accent2; Surface; Background].

(** [getattr(obj, self._name)] with [self._name = "_" + name]. *)
Definition getattr (obj : ColorSystem) (a : attr) : option string :=
  match a with
  | Secondary => _secondary obj
  | Warning => _warning obj
  | Error => _error obj
  | Success => _success obj
  | Accent1 => _accent1 obj
  | Accent2 => _accent2 obj
  | Surface => _surface obj
  | Background => _background obj
  end.

(** [setattr(obj, self._name, value)]. *)
Definition setattr (obj : ColorSystem) (a : attr) (v : option string) : ColorSystem :=
  let '{| _primary := p; _secondary := s; _warning := w; _error := e; _success := u;
          _accent1 := a1; _accent2 := a2; _background := b; _surface := f |} := obj in
  match a with
  | Secondary => Build_ColorSystem p v w e u a1 a2 b f
  | Warning => Build_ColorSystem p s v e u a1 a2 b f
  | Error => Build_ColorSystem p s w v u a1 a2 b f
  | Success => Build_ColorSystem p s w e v a1 a2 b f
  | Accent1 => Build_ColorSystem p s w e u v a2 b f
  | Accent2 => Build_ColorSystem p s w e u a1 v b f
  | Background => Build_ColorSystem p s w e u a1 a2 v f
  | Surface => Build_ColorSystem p s w e u a1 a2 b v
  end.

(** [ColorSystem.COLOR_NAMES]. *)
Definition COLOR_NAMES : list string :=
  ["primary"; "secondary"; "background"; "surface"; "warning"; "error";
   "success"; "accent1"; "accent2"].

(** The [shades] property: the names of the colours and derived shades. *)
Definition shades : list string :=
  color ← COLOR_NAMES;
  shade_number ← range (- NUMBER_OF_SHADES) (NUMBER_OF_SHADES + 1);
  if shade_number <? 0 then [color +:+ "-darken-" +:+ str (Z.abs shade_number)]
  else if 0 <? shade_number then [color +:+ "-lighten-" +:+ str shade_number]
  else [color].

(** The suffix built on line 163, [f"{label}{'-' + str(abs(n)) if n else ''}"]. *)
Definition shade_suffix (n : Z) : string :=
  let label := if n <? 0 then "-darken" else if 0 <? n then "-lighten" else "" in
  label +:+ (if n =? 0 then "" else "-" +:+ str (Z.abs n)).

(** The local generator [luminosity_range(spread)] of [generate]. *)
Definition luminosity_range (spread : float) : list (string * float) :=
  let luminosity_step := (spread / float_of_int 2)%float in
  (fun n => (shade_suffix n, (float_of_int n * luminosity_step)%float))
    <$> range (- NUMBER_OF_SHADES) (NUMBER_OF_SHADES + 1).

(** [DARK_SHADES = {"primary", "secondary"}]. *)
Definition DARK_SHADES : gset string := {["primary"; "secondary"]}.

Section color_system.
Context {Color : Type} `{!ColorAPI Color}.

(** [Color.parse(text)], raising where the parser does. *)
Definition Color_parse (text : string) : result Color :=
  match parse text with
  | Some c => Ok c
  | None => Raise (ColorParseError text)
  end.

(** The value assigned through a descriptor: [Color | str | None]. *)
Inductive value : Type :=
  | VColor (c : Color)
  | VStr (s : string)
  | VNone.

(** [ColorProperty.__get__]. *)
Definition ColorProperty_get (a : attr) (obj : ColorSystem) : result (option Color) :=
  match getattr obj a with
  | None => Ok None
  | Some color => Some <$> Color_parse color
  end.

(** [ColorProperty.__set__]. *)
Definition ColorProperty_set (a : attr) (obj : ColorSystem) (v : value) : ColorSystem :=
  match v with
  | VColor c => setattr obj a (Some (css c))
  | VStr s => setattr obj a (Some s)
  | VNone => setattr obj a None
  end.

(** The [primary] property (getter only). *)
Definition primary_get (obj : ColorSystem) : result Color :=
  Color_parse (_primary obj).

(** [x or y] where [x : Color | None].  The fallback applies to an unset
    field, a [Color] instance being never falsy: the right operand is
    evaluated exactly when [x] is [None]. *)
Definition or_else (x : option Color) (y : result Color) : result Color :=
  match x with
  | Some c => Ok c
  | None => y
  end.

(** The nine local variables bound on lines 130-144 of [generate]. *)
Record resolved : Type := {
  r_primary : Color;
  r_secondary : Color;
  r_warning : Color;
  r_error : Color;
  r_success : Color;
  r_accent1 : Color;
  r_accent2 : Color;
  r_background : Color;
  r_surface : Color;
}.

(** Lines 130-144: reading the fields and applying the fallbacks. *)
Definition resolve (self : ColorSystem) (dark : bool) : result resolved :=
  primary ← primary_get self;
  secondary ← (ColorProperty_get Secondary self ≫= fun x => or_else x (Ok primary));
  warning ← (ColorProperty_get Warning self ≫= fun x => or_else x (Ok primary));
  error ← (ColorProperty_get Error self ≫= fun x => or_else x (Ok secondary));
  success ← (ColorProperty_get Success self ≫= fun x => or_else x (Ok secondary));
  accent1 ← (ColorProperty_get Accent1 self ≫= fun x => or_else x (Ok primary));
  accent2 ← (ColorProperty_get Accent2 self ≫= fun x => or_else x (Ok secondary));
  background ← (ColorProperty_get Background self ≫= fun x =>
    or_else x (Color_parse
      (if dark then DEFAULT_DARK_BACKGROUND else DEFAULT_LIGHT_BACKGROUND)));
  surface ← (ColorProperty_get Surface self ≫= fun x =>
    or_else x (Color_parse
      (if dark then DEFAULT_DARK_SURFACE else DEFAULT_LIGHT_SURFACE)));
  mret {| r_primary := primary; r_secondary := secondary; r_warning := warning;
          r_error := error; r_success := success; r_accent1 := accent1;
          r_accent2 := accent2; r_background := background; r_surface := surface |}.

(** The list [COLORS] of line 166. *)
Definition COLORS (r : resolved) : list (string * Color) :=
  [("primary", r_primary r); ("secondary", r_secondary r);
   ("background", r_background r); ("surface", r_surface r);
   ("warning", r_warning r); ("error", r_error r); ("success", r_success r);
   ("accent1", r_accent1 r); ("accent2", r_accent2 r)].

(** Line 182, [is_dark_shade = dark and name in DARK_SHADES]. *)
Definition is_dark_shade (dark : bool) (name : string) : bool :=
  dark && bool_decide (name ∈ DARK_SHADES).

(** The shade colour computed on lines 185-193. *)
Definition shade_of (background color : Color) (is_dark_shade : bool)
    (spread luminosity_delta : float) : Color :=
  if is_dark_shade then
    let dark_background :=
      blend background color (float_of_int 12 / float_of_int 100)%float in
    clamped (blend dark_background WHITE (spread + luminosity_delta)%float)
  else lighten color luminosity_delta.

(** Lines 194-201: the three text entries of one shade. *)
Definition text_entries (name shade_name : string) (shade_color : Color)
    (text_alpha : float) (colors : gmap string string) : gmap string string :=
  foldl (fun colors fade =>
    let text_color := get_contrast_text shade_color text_alpha in
    if 0 <? fade then
      let text_color :=
        blend text_color shade_color (float_of_int fade * 0.1 + 0.15)%float in
      let on_name := "text-" +:+ name +:+ shade_name +:+ "-fade-" +:+ str fade in
      <[on_name := hex text_color]> colors
    else
      let on_name := "text-" +:+ name +:+ shade_name in
      <[on_name := hex text_color]> colors)
    colors (range 0 3).

(** Lines 146-203: the loops that fill [colors]. *)
Definition expand (r : resolved) (dark : bool) (luminosity_spread text_alpha : float)
    : gmap string string :=
  foldl (fun colors '(name, color) =>
    let is_dark_shade := is_dark_shade dark name in
    let spread :=
      if is_dark_shade then (luminosity_spread / 1.5)%float else luminosity_spread in
    foldl (fun colors '(shade_name, luminosity_delta) =>
      let shade_color :=
        shade_of (r_background r) color is_dark_shade spread luminosity_delta in
      let colors := <[name +:+ shade_name := hex shade_color]> colors in
      text_entries name shade_name shade_color text_alpha colors)
      colors (luminosity_range spread))
    (∅ : gmap string string) (COLORS r).

(** [ColorSystem.generate]. *)
Definition generate (self : ColorSystem) (dark : bool)
    (luminosity_spread text_alpha : float) : result (gmap string string) :=
  r ← resolve self dark;
  mret (expand r dark luminosity_spread text_alpha).

(** The operations of the public interface of a [ColorSystem] object:
    reading an attribute, calling [generate], and assigning to an attribute. *)
Inductive operation : Type :=
  | ReadPrimary
  | ReadField (a : attr)
  | ReadShades
  | CallGenerate (dark : bool) (luminosity_spread text_alpha : float)
  | AssignPrimary (v : value)
  | AssignField (a : attr) (v : value).

Definition exception_of {A : Type} (m : result A) : option exn :=
  match m with Ok _ => None | Raise e => Some e end.

(** The object after an operation, and the exception raised, if any.
    [primary] is a property without a setter, so assigning to it raises
    [AttributeError]; the other eight attributes are [ColorProperty]
    descriptors, whose [__set__] stores the value. *)
Definition perform (op : operation) (obj : ColorSystem) : ColorSystem * option exn :=
  match op with
  | ReadPrimary => (obj, exception_of (primary_get obj))
  | ReadField a => (obj, exception_of (ColorProperty_get a obj))
  | ReadShades => (obj, None)
  | CallGenerate dark luminosity_spread text_alpha =>
      (obj, exception_of (generate obj dark luminosity_spread text_alpha))
  | AssignPrimary v => (obj, Some (AttributeError "primary"))
  | AssignField a v => (ColorProperty_set a obj v, None)
  end.

(** The string stored by [ColorProperty.__set__] for a value. *)
Definition stored (v : value) : option string :=
  match v with
  | VColor c => Some (css c)
  | VStr s => Some s
  | VNone => None
  end.

(** *** Vocabulary of the properties *)

(** The shade points [-3 .. 3] visited by [luminosity_range]. *)
Definition shade_points : list Z := range (- NUMBER_OF_SHADES) (NUMBER_OF_SHADES + 1).

(** The spread of line 183. *)
Definition spread_of (dark : bool) (name : string) (luminosity_spread : float) : float :=
  if is_dark_shade dark name then (luminosity_spread / 1.5)%float else luminosity_spread.

(** The luminosity delta that [luminosity_range spread] attaches to point [n]. *)
Definition delta_of (spread : float) (n : Z) : float :=
  (float_of_int n * (spread / 2))%float.

(** The colour of shade [n] of the pair [(name, color)]. *)
Definition shade_color (r : resolved) (dark : bool) (luminosity_spread : float)
    (name : string) (color : Color) (n : Z) : Color :=
  let spread := spread_of dark name luminosity_spread in
  shade_of (r_background r) color (is_dark_shade dark name) spread (delta_of spread n).

Definition parses (text : string) : bool :=
  match parse text with Some _ => true | None => false end.

(** Every colour string held by the object is accepted by [Color.parse]. *)
Definition valid_theme (self : ColorSystem) : bool :=
  parses (_primary self) &&
  forallb (fun a => match getattr self a with Some s => parses s | None => true end)
    all_attrs.

(** The four built-in defaults are accepted by [Color.parse]. *)
Definition defaults_parse : bool :=
  forallb parses [DEFAULT_DARK_BACKGROUND; DEFAULT_DARK_SURFACE;
                  DEFAULT_LIGHT_BACKGROUND; DEFAULT_LIGHT_SURFACE].

(** How one optional field is resolved: its own string when set, the
    fallback otherwise. *)
Definition field_resolves (raw : option string) (fallback : option Color) (c : Color) : Prop :=
  match raw with
  | Some s => parse s = Some c
  | None => fallback = Some c
  end.

Definition default_background (dark : bool) : string :=
  if dark then DEFAULT_DARK_BACKGROUND else DEFAULT_LIGHT_BACKGROUND.

Definition default_surface (dark : bool) : string :=
  if dark then DEFAULT_DARK_SURFACE else DEFAULT_LIGHT_SURFACE.

(** The strings that lines 130-144 may hand to [Color.parse]. *)
Definition read_by_resolve (self : ColorSystem) (dark : bool) (text : string) : Prop :=
  text = _primary self \/ (exists a, getattr self a = Some text) \/
  (_background self = None /\ text = default_background dark) \/
  (_surface self = None /\ text = default_surface dark).

End color_system.

Arguments value : clear implicits.
Arguments operation : clear implicits.
Arguments resolved : clear implicits.

(** The four entries written for one shade name. *)
Definition names_of_shade (s : string) : list string :=
  [s; "text-" +:+ s; "text-" +:+ s +:+ "-fade-1"; "text-" +:+ s +:+ "-fade-2"].

Definition generated_names : list string := s ← shades; names_of_shade s.

(** Strings of the form [#rrggbb]: a hash sign and six hexadecimal digits. *)
Definition is_hex_digit (c : ascii) : bool :=
  let n := Z.of_N (N_of_ascii c) in
  ((48 <=? n) && (n <=? 57)) || ((97 <=? n) && (n <=? 102)) || ((65 <=? n) && (n <=? 70)).

Definition is_rrggbb (s : string) : bool :=
  match s with
  | String "#" digits =>
      (Nat.eqb (String.length digits) 6) && forallb is_hex_digit (list_ascii_of_string digits)
  | _ => false
  end.

(** ** A reference implementation of the [Color] interface *)

Module RGB.

(** Modelled from the spec: the [Color] class of [textual/color.py] is not
    among the sources.  The specification gives its contract: red, green and
    blue channels, [parse] failing on malformed input, a linear [blend]
    towards another colour by a ratio, [lighten] by a signed delta, a
    contrasting foreground at a given alpha, [clamp] to the displayable
    range, and a hex-string form [#rrggbb].  The bodies below are one
    implementation of that contract; channels are integers and the
    displayable range is 0..255. *)
Record t : Type := mk { red : Z; green : Z; blue : Z }.

(** [int(x)]: truncation towards zero (0 where Python raises). *)
Definition int_of_float (x : float) : Z :=
  match Prim2SF x with
  | S754_finite s m e =>
      let v := if 0 <=? e then Z.pos m * 2 ^ e else Z.pos m / 2 ^ (- e) in
      if s then - v else v
  | _ => 0
  end.

Definition hex_digit_value (c : ascii) : option Z :=
  let n := Z.of_N (N_of_ascii c) in
  if (48 <=? n) && (n <=? 57) then Some (n - 48)
  else if (97 <=? n) && (n <=? 102) then Some (n - 87)
  else if (65 <=? n) && (n <=? 70) then Some (n - 55)
  else None.

Definition hex_pair (hi lo : ascii) : option Z :=
  h ← hex_digit_value hi; l ← hex_digit_value lo; Some (16 * h + l).

Definition parse (text : string) : option t :=
  match text with
  | String "#" (String r1 (String r2 (String g1 (String g2
      (String b1 (String b2 EmptyString)))))) =>
      r ← hex_pair r1 r2; g ← hex_pair g1 g2; b ← hex_pair b1 b2;
      Some (mk r g b)
  | _ => None
  end.

Definition clamp_channel (v : Z) : Z := Z.max 0 (Z.min 255 v).

Definition clamped (c : t) : t :=
  mk (clamp_channel (red c)) (clamp_channel (green c)) (clamp_channel (blue c)).

Definition hex_digit (d : Z) : ascii :=
  ascii_of_N (Z.to_N (if d <? 10 then 48 + d else 87 + d)).

Definition hex_byte (v : Z) : string :=
  String (hex_digit (v / 16)) (String (hex_digit (v mod 16)) EmptyString).

(** Modelled from the spec: the [hex] property of [Color], which is not
    among the sources; the specification exposes a colour "in a hex-string
    form ([#rrggbb])".  The channels are clamped to the displayable range
    and printed with two hexadecimal digits each. *)
Definition hex (c : t) : string :=
  let c := clamped c in
  "#" +:+ hex_byte (red c) +:+ hex_byte (green c) +:+ hex_byte (blue c).

Definition blend_channel (a b : Z) (factor : float) : Z :=
  int_of_float (float_of_int a + float_of_int (b - a) * factor)%float.

Definition blend (c other : t) (factor : float) : t :=
  mk (blend_channel (red c) (red other) factor)
     (blend_channel (green c) (green other) factor)
     (blend_channel (blue c) (blue other) factor).

Definition WHITE : t := mk 255 255 255.
Definition BLACK : t := mk 0 0 0.

(** Modelled from the spec: [lighten] is not among the sources; the
    specification has it lighten by a signed delta, a negative delta
    darkening, and [lighten(0)] giving the colour itself.  Here the delta,
    as a fraction of the channel range 255, is added to every channel. *)
Definition lighten (c : t) (delta : float) : t :=
  let shift v := int_of_float (float_of_int v + delta * float_of_int 255)%float in
  clamped (mk (shift (red c)) (shift (green c)) (shift (blue c))).

Definition brightness (c : t) : Z :=
  (299 * red c + 587 * green c + 114 * blue c) / 1000.

Definition get_contrast_text (c : t) (alpha : float) : t :=
  if brightness c <? 128 then blend c WHITE alpha else blend c BLACK alpha.

Definition api : ColorAPI t :=
  Build_ColorAPI t parse hex hex blend lighten clamped get_contrast_text WHITE.


End RGB.

(** The theme built in the [__main__] block of [design.py]. *)
Definition demo_theme : ColorSystem :=
  __init__ "#005EA8" (Some "#F59402") (Some "#ffa000") (Some "#C62828") (Some "#558B2F")
    None None None None.

(** A theme with only [primary] set. *)
Definition primary_only : ColorSystem :=
  __init__ "#005EA8" None None None None None None None None.

(** A theme whose [error] colour is malformed. *)
Definition broken_theme : ColorSystem :=
  __init__ "#005EA8" None None (Some "not-a-colour") None None None None None.

(** The nine colours of [demo_theme] in light and in dark mode, and those of
    [primary_only] in light mode. *)
Definition demo_light : resolved RGB.t :=
  {| r_primary := RGB.mk 0 94 168; r_secondary := RGB.mk 245 148 2;
     r_warning := RGB.mk 255 160 0; r_error := RGB.mk 198 40 40;
     r_success := RGB.mk 85 139 47; r_accent1 := RGB.mk 0 94 168;
     r_accent2 := RGB.mk 245 148 2; r_background := RGB.mk 245 245 245;
     r_surface := RGB.mk 239 239 239 |}.

Definition demo_dark : resolved RGB.t :=
  {| r_primary := RGB.mk 0 94 168; r_secondary := RGB.mk 245 148 2;
     r_warning := RGB.mk 255 160 0; r_error := RGB.mk 198 40 40;
     r_success := RGB.mk 85 139 47; r_accent1 := RGB.mk 0 94 168;
     r_accent2 := RGB.mk 245 148 2; r_background := RGB.mk 0 0 0;
     r_surface := RGB.mk 18 18 18 |}.

Definition primary_only_light : resolved RGB.t :=
  {| r_primary := RGB.mk 0 94 168; r_secondary := RGB.mk 0 94 168;
     r_warning := RGB.mk 0 94 168; r_error := RGB.mk 0 94 168;
     r_success := RGB.mk 0 94 168; r_accent1 := RGB.mk 0 94 168;
     r_accent2 := RGB.mk 0 94 168; r_background := RGB.mk 245 245 245;
     r_surface := RGB.mk 239 239 239 |}.

(** [demo_dark] after [warning] is reassigned to [#112233]. *)
Definition demo_dark_rewarned : resolved RGB.t :=
  {| r_primary := RGB.mk 0 94 168; r_secondary := RGB.mk 245 148 2;
     r_warning := RGB.mk 17 34 51; r_error := RGB.mk 198 40 40;
     r_success := RGB.mk 85 139 47; r_accent1 := RGB.mk 0 94 168;
     r_accent2 := RGB.mk 245 148 2; r_background := RGB.mk 0 0 0;
     r_surface := RGB.mk 18 18 18 |}.

(** * The rest of [design.py] *)

(** ** Rendering ([ColorSystem.__rich__])

    [rich] is an external library.  Its objects are modelled by the calls
    [__rich__] makes on them: a [Text] is the text and style given to the
    constructor with the [(text, style)] pairs appended afterwards, a
    [Padding] is its three arguments, a [Group] is the renderables it was
    built from and its [fit] flag, a [Table] is its options, its columns
    and its rows.  [make_shades] is a generator function wrapped by
    [@group()]: the decorator replaces it by a function that calls it and
    unpacks the generator into the arguments of [Group], with [fit=True],
    so the generator runs to its end inside the call [make_shades(dark)],
    and an exception that stops it is raised by that call. *)

Record Text : Type := {
  text_text : string;
  text_style : string;
  text_spans : list (string * string);
}.

(** [text.append(s, style=style)]. *)
Definition Text_append (text : Text) (s style : string) : Text :=
  {| text_text := text_text text; text_style := text_style text;
     text_spans := (text_spans text ++ [(s, style)])%list |}.

Record Padding : Type := {
  padding_renderable : Text;
  padding_pad : Z;
  padding_style : string;
}.

(** What can stop [make_shades]: an exception of [generate], or the
    [KeyError] of a subscript [colors[key]]. *)
Inductive render_exn : Type :=
  | FromGenerate (e : exn)
  | KeyError (key : string).

Inductive outcome (A : Type) : Type :=
  | Returned (a : A)
  | Raised (e : render_exn).
Arguments Returned {A} a.
Arguments Raised {A} e.

#[global] Instance outcome_ret : MRet outcome := fun _ a => Returned a.
#[global] Instance outcome_bind : MBind outcome := fun _ _ f m =>
  match m with Returned a => f a | Raised e => Raised e end.

(** [colors[key]]. *)
Definition getitem (colors : gmap string string) (key : string) : outcome string :=
  match colors !! key with
  | Some v => Returned v
  | None => Raised (KeyError key)
  end.

(** A [for] loop that threads its variables and stops at the first exception. *)
Fixpoint for_each {A B : Type} (body : B -> A -> outcome B) (vars : B) (l : list A)
    : outcome B :=
  match l with
  | [] => Returned vars
  | x :: l => vars ← body vars x; for_each body vars l
  end.

(** Lines 210-219: the body of the loop over [self.shades]. *)
Definition make_shade (colors : gmap string string) (name : string) : outcome Padding :=
  background ← getitem colors name;
  foreground ← getitem colors ("text-" +:+ name);
  let text :=
    {| text_text := background +:+ " ";
       text_style := foreground +:+ " on " +:+ background;
       text_spans := [] |} in
  '(text, foreground) ← for_each (fun '(text, foreground) fade =>
      foreground ← getitem colors
        (if fade =? 0 then "text-" +:+ name
         else "text-" +:+ name +:+ "-fade-" +:+ str fade);
      mret (Text_append text (name +:+ " ") (foreground +:+ " on " +:+ background),
            foreground))
    (text, foreground) (range 0 3);
  mret {| padding_renderable := text; padding_pad := 1;
          padding_style := foreground +:+ " on " +:+ background |}.

(** A [Group]: the renderables it was called on and [fit]. *)
Record Group : Type := {
  group_renderables : list Padding;
  group_fit : bool;
}.

Record Table : Type := {
  table_box : option string;
  table_expand : bool;
  table_columns : list (string * string);
  table_rows : list (list Group);
}.

(** The strings that lines 130-144 hand to [Color.parse], in the order in
    which they do: [primary], the six optional colours that are set, then
    [background] and [surface], each replaced by its default when unset. *)
Definition reads (self : ColorSystem) (dark : bool) : list string :=
  (_primary self ::
   option_list (_secondary self) ++ option_list (_warning self) ++
   option_list (_error self) ++ option_list (_success self) ++
   option_list (_accent1 self) ++ option_list (_accent2 self) ++
   [default (default_background dark) (_background self);
    default (default_surface dark) (_surface self)])%list.

(** The name of the class attribute bound to a descriptor, which is also
    the name of its colour in [COLORS]. *)
Definition attr_name (a : attr) : string :=
  match a with
  | Secondary => "secondary"
  | Warning => "warning"
  | Error => "error"
  | Success => "success"
  | Accent1 => "accent1"
  | Accent2 => "accent2"
  | Surface => "surface"
  | Background => "background"
  end.

(** The four keys written for shade [n] of a base name, and the values a
    palette holds for them. *)
Definition shade_keys (name : string) (n : Z) : list string :=
  names_of_shade (name +:+ shade_suffix n).

Definition shade_entries (m : gmap string string) (name : string) (n : Z)
    : list (option string) :=
  (fun k => m !! k) <$> shade_keys name n.

Section rendering.
Context {Color : Type} `{!ColorAPI Color}.

(** Lines 208-219: the generator under the decorator, run to its end: the
    paddings it yields, or the exception that stops it.  [generate] is
    called with its default [luminosity_spread] and [text_alpha]. *)
Definition make_shades_yields (self : ColorSystem) (dark : bool) : outcome (list Padding) :=
  match generate self dark 0.15 0.9 with
  | Raise e => Raised (FromGenerate e)
  | Ok colors => mapM (make_shade colors) shades
  end.

(** Lines 206-207: [make_shades(dark)] as [@group()] leaves it, the call
    that runs the generator and collects what it yields in a [Group]. *)
Definition make_shades (self : ColorSystem) (dark : bool) : outcome Group :=
  renderables ← make_shades_yields self dark;
  mret {| group_renderables := renderables; group_fit := true |}.

(** [ColorSystem.__rich__].  The arguments of [add_row] are evaluated from
    left to right, [make_shades(False)] first; when one of the two calls
    raises, so does [__rich__], and no table is returned. *)
Definition __rich__ (self : ColorSystem) : outcome Table :=
  light ← make_shades self false;
  dark ← make_shades self true;
  mret {| table_box := None; table_expand := true;
          table_columns := [("Light", "center"); ("Dark", "center")];
          table_rows := [[light; dark]] |}.

(** The first string of a list that [Color.parse] rejects. *)
Fixpoint first_malformed (l : list string) : option string :=
  match l with
  | [] => None
  | s :: l => if parses s then first_malformed l else Some s
  end.

(** A run of public operations, from left to right. *)
Definition perform_all (ops : list (operation Color)) (obj : ColorSystem) : ColorSystem :=
  foldl (fun obj op => (perform op obj).1) obj ops.

End rendering.

(** * Properties *)

(** ** Names of the generated entries *)

Lemma shades_length : length shades = 63%nat.
Proof. reflexivity. Qed.

Lemma shades_spec :
  shades = name ← COLOR_NAMES; (fun n => name +:+ shade_suffix n) <$> shade_points.
Proof. vm_compute. reflexivity. Qed.

Lemma generated_names_length : length generated_names = 252%nat.
Proof. reflexivity. Qed.

Lemma generated_names_NoDup : NoDup generated_names.
Proof. apply (bool_decide_unpack _). vm_compute. exact I. Qed.

Lemma elem_of_shades (s : string) :
  s ∈ shades <-> exists name n, name ∈ COLOR_NAMES /\ n ∈ shade_points /\ s = name +:+ shade_suffix n.
Proof.
  rewrite shades_spec, list_elem_of_bind. split.
  - intros (name & Hs & Hname). apply list_elem_of_fmap in Hs as (n & -> & Hn). eauto.
  - intros (name & n & Hname & Hn & ->). exists name. split; [|done].
    apply list_elem_of_fmap. eauto.
Qed.

(** ** Floating-point facts used below *)

Lemma fade_ratios :
  (float_of_int 1 * 0.1 + 0.15 = 0.25)%float /\ (float_of_int 2 * 0.1 + 0.15 = 0.35)%float.
Proof. split; vm_compute; reflexivity. Qed.

Lemma dark_weight : (float_of_int 12 / float_of_int 100 = 0.12)%float.
Proof. vm_compute. reflexivity. Qed.





(** The floats that compare equal to zero are the two zeros. *)
Lemma float_eqb_zero (x : float) :
  (x =? 0)%float = true -> x = 0%float \/ x = (-0)%float.
Proof.
  rewrite FloatAxioms.eqb_spec. change (Prim2SF 0%float) with (S754_zero false).
  intros Heq. rewrite <- (SF2Prim_Prim2SF x).
  destruct (Prim2SF x) as [[]|[]| |[] m e]; try discriminate Heq; auto.
Qed.

Lemma is_dark_shade_spec (dark : bool) (name : string) :
  is_dark_shade dark name = true <->
  dark = true /\ (name = "primary" \/ name = "secondary").
Proof.
  unfold is_dark_shade, DARK_SHADES.
  rewrite andb_true_iff, bool_decide_eq_true, elem_of_union, !elem_of_singleton.
  reflexivity.
Qed.

Lemma elem_of_shade_points (n : Z) : n ∈ shade_points <-> -3 <= n <= 3.
Proof. unfold shade_points, range. rewrite elem_of_seqZ. unfold NUMBER_OF_SHADES. lia. Qed.

Section palette.
Context {Color : Type} `{!ColorAPI Color}.

(** ** The entries written for one shade *)

Lemma expand_lookup (r : resolved Color) (dark : bool) (ls ta : float)
    (name : string) (color : Color) (n : Z) :
  (name, color) ∈ COLORS r -> n ∈ shade_points ->
  let m := expand r dark ls ta in
  let k := name +:+ shade_suffix n in
  let c := shade_color r dark ls name color n in
  let t := get_contrast_text c ta in
  m !! k = Some (hex c) /\
  m !! ("text-" +:+ k) = Some (hex t) /\
  m !! ("text-" +:+ k +:+ "-fade-" +:+ str 1)
    = Some (hex (blend t c (float_of_int 1 * 0.1 + 0.15)%float)) /\
  m !! ("text-" +:+ k +:+ "-fade-" +:+ str 2)
    = Some (hex (blend t c (float_of_int 2 * 0.1 + 0.15)%float)).
Proof.
  intros Hc Hn. destruct r.
  unfold COLORS in Hc; cbn [r_primary r_secondary r_warning r_error r_success
    r_accent1 r_accent2 r_background r_surface] in Hc.
  vm_compute in Hn.
  repeat (apply elem_of_cons in Hc as [Hc|Hc]; [injection Hc as -> ->|]);
    [..|by apply elem_of_nil in Hc];
  (repeat (apply elem_of_cons in Hn as [->|Hn]); [..|by apply elem_of_nil in Hn]);
  destruct dark; vm_compute; auto.
Qed.

(** ** Resolution of the nine colours *)

Lemma resolve_Ok (self : ColorSystem) (dark : bool) (r : resolved Color) :
  resolve self dark = Ok r <->
  parse (_primary self) = Some (r_primary r) /\
  field_resolves (_secondary self) (Some (r_primary r)) (r_secondary r) /\
  field_resolves (_warning self) (Some (r_primary r)) (r_warning r) /\
  field_resolves (_error self) (Some (r_secondary r)) (r_error r) /\
  field_resolves (_success self) (Some (r_secondary r)) (r_success r) /\
  field_resolves (_accent1 self) (Some (r_primary r)) (r_accent1 r) /\
  field_resolves (_accent2 self) (Some (r_secondary r)) (r_accent2 r) /\
  field_resolves (_background self) (parse (default_background dark)) (r_background r) /\
  field_resolves (_surface self) (parse (default_surface dark)) (r_surface r).
Proof.
  destruct self as [p s w e u a1 a2 b f], r as [rp rs rw re ru ra1 ra2 rb rf].
  unfold resolve, primary_get, ColorProperty_get, Color_parse, field_resolves,
    default_background, default_surface, getattr, mret, result_ret. cbn.
  set (pb := parse (if dark then DEFAULT_DARK_BACKGROUND else _)).
  set (pf := parse (if dark then DEFAULT_DARK_SURFACE else _)).
  clearbody pb pf. split.
  - destruct (parse p); cbn; [|discriminate].
    destruct s as [s|]; [destruct (parse s)|]; cbn; try discriminate;
    (destruct w as [w|]; [destruct (parse w)|]; cbn; try discriminate);
    (destruct e as [e|]; [destruct (parse e)|]; cbn; try discriminate);
    (destruct u as [u|]; [destruct (parse u)|]; cbn; try discriminate);
    (destruct a1 as [a1|]; [destruct (parse a1)|]; cbn; try discriminate);
    (destruct a2 as [a2|]; [destruct (parse a2)|]; cbn; try discriminate);
    (destruct b as [b|]; [destruct (parse b)|destruct pb]; cbn; try discriminate);
    (destruct f as [f|]; [destruct (parse f)|destruct pf]; cbn; try discriminate);
    intros [=]; subst; repeat split; reflexivity.
  - intros (Hp & Hs & Hw & He & Hu & Ha1 & Ha2 & Hb & Hf).
    rewrite Hp; cbn.
    destruct s; rewrite ?Hs; cbn; [|injection Hs as <-];
    (destruct w; rewrite ?Hw; cbn; [|injection Hw as <-]);
    (destruct e; rewrite ?He; cbn; [|injection He as <-]);
    (destruct u; rewrite ?Hu; cbn; [|injection Hu as <-]);
    (destruct a1; rewrite ?Ha1; cbn; [|injection Ha1 as <-]);
    (destruct a2; rewrite ?Ha2; cbn; [|injection Ha2 as <-]);
    (destruct b; rewrite ?Hb; cbn);
    (destruct f; rewrite ?Hf; cbn); reflexivity.
Qed.

(** ** Shape of the generated palette *)

Lemma Ok_inj {A : Type} (a b : A) : Ok a = Ok b -> a = b.
Proof. by intros [= ->]. Qed.

Lemma generate_unfold (self : ColorSystem) (dark : bool) (ls ta : float) :
  generate self dark ls ta =
  match resolve self dark with
  | Ok r => Ok (expand r dark ls ta)
  | Raise e => Raise e
  end.
Proof. reflexivity. Qed.

Lemma generate_Ok (self : ColorSystem) (dark : bool) (ls ta : float) (m : gmap string string) :
  generate self dark ls ta = Ok m <->
  exists r, resolve self dark = Ok r /\ m = expand r dark ls ta.
Proof.
  rewrite generate_unfold. destruct (resolve self dark) as [r|e]; split.
  - intros Hm%Ok_inj. exists r. by split.
  - intros (r' & Hr%Ok_inj & ->). by rewrite Hr.
  - discriminate.
  - intros (r' & Hr & _). discriminate Hr.
Qed.

Lemma generate_Raise (self : ColorSystem) (dark : bool) (ls ta : float) (e : exn) :
  generate self dark ls ta = Raise e <-> resolve self dark = Raise e.
Proof.
  rewrite generate_unfold. destruct (resolve self dark) as [r|e']; split;
    intros He; (discriminate He || congruence).
Qed.

Lemma expand_size (r : resolved Color) (dark : bool) (ls ta : float) :
  size (expand r dark ls ta) = 252%nat.
Proof. destruct r, dark; vm_compute; reflexivity. Qed.

Lemma expand_defined (r : resolved Color) (dark : bool) (ls ta : float) :
  Forall (fun k => is_Some (expand r dark ls ta !! k)) generated_names.
Proof.
  apply Forall_forall. intros k Hk.
  apply list_elem_of_bind in Hk as (s & Hk & Hs).
  apply elem_of_shades in Hs as (name & n & Hname & Hn & ->).
  change COLOR_NAMES with (fst <$> COLORS r) in Hname.
  apply list_elem_of_fmap in Hname as ([name' color] & -> & Hc).
  destruct (expand_lookup r dark ls ta name' color n Hc Hn) as (Hs & Ht & Hf1 & Hf2).
  unfold names_of_shade in Hk.
  repeat (apply elem_of_cons in Hk as [->|Hk]).
  - eexists. exact Hs.
  - eexists. exact Ht.
  - eexists. exact Hf1.
  - eexists. exact Hf2.
  - apply elem_of_nil in Hk. destruct Hk.
Qed.

(** The keys of the palette are exactly the generated names. *)
Lemma expand_dom (r : resolved Color) (dark : bool) (ls ta : float) :
  dom (expand r dark ls ta) = list_to_set generated_names.
Proof.
  symmetry. apply set_subseteq_size_eq.
  - intros k Hk%elem_of_list_to_set. apply elem_of_dom.
    by apply (proj1 (Forall_forall _ _) (expand_defined r dark ls ta)).
  - rewrite size_dom, expand_size, size_list_to_set by apply generated_names_NoDup.
    by rewrite generated_names_length.
Qed.

Lemma COLORS_names (r : resolved Color) : fst <$> COLORS r = COLOR_NAMES.
Proof. reflexivity. Qed.

(** A parse failure is the only exception of the resolution phase, and
    the rejected text is one of the strings read by it. *)
Lemma resolve_Raise (self : ColorSystem) (dark : bool) (e : exn) :
  resolve self dark = Raise e ->
  exists text, e = ColorParseError text /\ parse text = None /\
    read_by_resolve self dark text.
Proof.
  destruct self as [p s w er u a1 a2 b f].
  unfold read_by_resolve, resolve, primary_get, ColorProperty_get, Color_parse,
    mret, result_ret. cbn.
  change (if dark then DEFAULT_DARK_BACKGROUND else _) with (default_background dark).
  change (if dark then DEFAULT_DARK_SURFACE else _) with (default_surface dark).
  set (db := default_background dark). set (df := default_surface dark).
  pose (obj := __init__ p s w er u a1 a2 b f).
  assert (forall a text, getattr obj a = Some text -> parse text = None ->
    exists text0, ColorParseError text = ColorParseError text0 /\ parse text0 = None /\
      (text0 = p \/ (exists a, getattr obj a = Some text0) \/
       (b = None /\ text0 = db) \/ (f = None /\ text0 = df))) as Hfield.
  { intros a text Ha Hp. exists text. eauto 7. }
  change (__init__ p s w er u a1 a2 b f) with obj. clearbody db df.
  destruct (parse p) eqn:?; cbn; [|intros [= <-]; exists p; eauto].
  destruct s as [s|]; [destruct (parse s) eqn:?|]; cbn;
    [|intros [= <-]; by apply (Hfield Secondary)|].
  all: destruct w as [w|]; [destruct (parse w) eqn:?|]; cbn;
    [|intros [= <-]; by apply (Hfield Warning)|].
  all: destruct er as [er|]; [destruct (parse er) eqn:?|]; cbn;
    [|intros [= <-]; by apply (Hfield Error)|].
  all: destruct u as [u|]; [destruct (parse u) eqn:?|]; cbn;
    [|intros [= <-]; by apply (Hfield Success)|].
  all: destruct a1 as [a1|]; [destruct (parse a1) eqn:?|]; cbn;
    [|intros [= <-]; by apply (Hfield Accent1)|].
  all: destruct a2 as [a2|]; [destruct (parse a2) eqn:?|]; cbn;
    [|intros [= <-]; by apply (Hfield Accent2)|].
  all: destruct b as [b|]; [destruct (parse b) eqn:?|destruct (parse db) eqn:?]; cbn;
    [|intros [= <-]; by apply (Hfield Background)| |intros [= <-]; exists db; eauto 7].
  all: destruct f as [f|]; [destruct (parse f) eqn:?|destruct (parse df) eqn:?]; cbn;
    [|intros [= <-]; by apply (Hfield Surface)| |intros [= <-]; exists df; eauto 8].
  all: discriminate.
Qed.

Lemma valid_theme_spec (self : ColorSystem) :
  valid_theme self = true ->
  parses (_primary self) = true /\
  forall a s, getattr self a = Some s -> parses s = true.
Proof.
  unfold valid_theme. intros [Hp Ha]%andb_prop. split; [done|].
  intros a s Hs. rewrite forallb_forall in Ha.
  specialize (Ha a). rewrite Hs in Ha. apply Ha. destruct a; cbn; auto 10.
Qed.

(** With valid strings everywhere, the resolution phase succeeds. *)
Lemma resolve_valid (self : ColorSystem) (dark : bool) :
  valid_theme self = true -> defaults_parse = true ->
  exists r, resolve self dark = Ok r.
Proof.
  intros [Hp Ha]%valid_theme_spec Hd.
  destruct (resolve self dark) as [r|e] eqn:Hr; [eauto|exfalso].
  apply resolve_Raise in Hr as (text & _ & Hnone & Hread).
  assert (parses text = true) as Htext; [|unfold parses in Htext; by rewrite Hnone in Htext].
  unfold defaults_parse in Hd. cbn in Hd.
  apply andb_prop in Hd as [Hdb Hd]. apply andb_prop in Hd as [Hds Hd].
  apply andb_prop in Hd as [Hlb Hd]. apply andb_prop in Hd as [Hls _].
  destruct Hread as [->|[[a Hget]|[[_ ->]|[_ ->]]]]; [done|eauto|..];
    unfold default_background, default_surface; by destruct dark.
Qed.

(** Every value written by the loops is the hex form of some colour. *)
Lemma foldl_invariant {A B : Type} (P : B -> Prop) (f : B -> A -> B) (l : list A) (b : B) :
  P b -> (forall b a, a ∈ l -> P b -> P (f b a)) -> P (foldl f b l).
Proof.
  revert b. induction l as [|a l IH]; intros b Hb Hf; cbn; [done|].
  apply IH.
  - apply Hf; [left|done].
  - intros b' a' Ha'. apply Hf. by right.
Qed.

Lemma text_entries_values (P : string -> Prop) (name shade_name : string) (c : Color)
    (ta : float) (colors : gmap string string) :
  (forall c, P (hex c)) -> map_Forall (fun _ v => P v) colors ->
  map_Forall (fun _ v => P v) (text_entries name shade_name c ta colors).
Proof.
  intros HP Hcolors. unfold text_entries.
  apply (foldl_invariant (map_Forall (fun _ v => P v))); [done|].
  intros b fade _ Hb. destruct (0 <? fade); by apply map_Forall_insert_2.
Qed.

Lemma expand_values (P : string -> Prop) (r : resolved Color) (dark : bool) (ls ta : float) :
  (forall c, P (hex c)) -> map_Forall (fun _ v => P v) (expand r dark ls ta).
Proof.
  intros HP. unfold expand.
  apply (foldl_invariant (map_Forall (fun _ v => P v))); [apply map_Forall_empty|].
  intros colors [name color] _ Hcolors.
  apply (foldl_invariant (map_Forall (fun _ v => P v))); [done|].
  intros colors' [shade_name delta] _ Hcolors'.
  apply text_entries_values; [done|]. by apply map_Forall_insert_2.
Qed.

Lemma expand_keys (r : resolved Color) (dark : bool) (ls ta : float) (k : string) :
  is_Some (expand r dark ls ta !! k) <-> k ∈ generated_names.
Proof. by rewrite <- elem_of_dom, expand_dom, elem_of_list_to_set. Qed.

Lemma names_of_shade_generated (s k : string) :
  s ∈ shades -> k ∈ names_of_shade s -> k ∈ generated_names.
Proof. intros Hs Hk. apply list_elem_of_bind. eauto. Qed.

(** ** The claims *)

(* The palette is never unfolded by the tactics below. *)
#[local] Opaque expand.

(** C1. For a theme whose colour strings all parse, and for every [dark],
    [luminosity_spread] and [text_alpha], [generate] returns a mapping with
    exactly 252 entries: its keys are the 63 shade names together with, for
    each shade name [s], [text-s], [text-s-fade-1] and [text-s-fade-2];
    these 252 names are pairwise distinct and every one of them is bound to
    a value. *)
Theorem generate_complete (self : ColorSystem) (dark : bool) (ls ta : float) :
  valid_theme self = true -> defaults_parse = true ->
  exists m : gmap string string,
    generate self dark ls ta = Ok m /\
    size m = 252%nat /\
    length COLOR_NAMES = 9%nat /\ length shade_points = 7%nat /\
    length shades = 63%nat /\
    NoDup generated_names /\
    (forall k, is_Some (m !! k) <-> k ∈ generated_names) /\
    (forall s, s ∈ shades ->
       exists v t f1 f2 : string,
         m !! s = Some v /\
         m !! ("text-" +:+ s) = Some t /\
         m !! ("text-" +:+ s +:+ "-fade-1") = Some f1 /\
         m !! ("text-" +:+ s +:+ "-fade-2") = Some f2).
Proof.
  intros Hv Hd. destruct (resolve_valid self dark Hv Hd) as [r Hr].
  exists (expand r dark ls ta).
  split; [apply generate_Ok; eauto|].
  split; [apply expand_size|].
  do 3 (split; [reflexivity|]).
  split; [apply generated_names_NoDup|].
  split; [apply expand_keys|].
  intros s Hs.
  assert (forall k, k ∈ names_of_shade s -> is_Some (expand r dark ls ta !! k)) as Hk.
  { intros k Hk. apply expand_keys. by apply names_of_shade_generated with s. }
  unfold names_of_shade in Hk.
  destruct (Hk s) as [v Hv']; [by repeat constructor|].
  destruct (Hk ("text-" +:+ s)) as [t Ht]; [by repeat constructor|].
  destruct (Hk ("text-" +:+ s +:+ "-fade-1")) as [f1 Hf1]; [by repeat constructor|].
  destruct (Hk ("text-" +:+ s +:+ "-fade-2")) as [f2 Hf2]; [by repeat constructor|].
  exists v, t, f1, f2. repeat split; assumption.
Qed.

(** C2. When the nine colours resolve, an unset [secondary], [warning] or
    [accent1] is [primary]; an unset [error], [success] or [accent2] is the
    resolved [secondary]; an unset [background] or [surface] is the parsed
    dark default in dark mode and the parsed light default otherwise.  With
    only [primary] set, the six of them all resolve to [primary]. *)
Theorem fallback_resolution (self : ColorSystem) (dark : bool) (ls ta : float)
    (r : resolved Color) :
  resolve self dark = Ok r ->
  generate self dark ls ta = Ok (expand r dark ls ta) /\
  parse (_primary self) = Some (r_primary r) /\
  (_secondary self = None -> r_secondary r = r_primary r) /\
  (_warning self = None -> r_warning r = r_primary r) /\
  (_accent1 self = None -> r_accent1 r = r_primary r) /\
  (_error self = None -> r_error r = r_secondary r) /\
  (_success self = None -> r_success r = r_secondary r) /\
  (_accent2 self = None -> r_accent2 r = r_secondary r) /\
  (_background self = None ->
     parse (if dark then DEFAULT_DARK_BACKGROUND else DEFAULT_LIGHT_BACKGROUND)
       = Some (r_background r)) /\
  (_surface self = None ->
     parse (if dark then DEFAULT_DARK_SURFACE else DEFAULT_LIGHT_SURFACE)
       = Some (r_surface r)) /\
  (_secondary self = None -> _warning self = None -> _error self = None ->
   _success self = None -> _accent1 self = None -> _accent2 self = None ->
     r_secondary r = r_primary r /\ r_warning r = r_primary r /\
     r_accent1 r = r_primary r /\ r_error r = r_primary r /\
     r_success r = r_primary r /\ r_accent2 r = r_primary r).
Proof.
  intros Hr. split; [apply generate_Ok; eauto|].
  apply resolve_Ok in Hr as (Hp & Hs & Hw & He & Hu & Ha1 & Ha2 & Hb & Hf).
  unfold field_resolves, default_background, default_surface in *.
  destruct self as [p s w e u a1 a2 b f]. cbn in *.
  split; [done|].
  repeat split; intros; subst; cbn in *; congruence.
Qed.

(** C3. In dark mode, shade [n] (from -3 to 3) of [primary] and of
    [secondary] is stored as the hex form of
    [clamped (blend (blend background color 0.12) WHITE (s' + n * (s' / 2)))]
    with [s' = luminosity_spread / 1.5]; for every other combination of name
    and mode the dark rule is off and the entry is the hex form of
    [lighten color (n * (luminosity_spread / 2))]. *)
Theorem dark_shade_rule (self : ColorSystem) (dark : bool) (ls ta : float)
    (r : resolved Color) (m : gmap string string) (name : string) (color : Color) (n : Z) :
  resolve self dark = Ok r -> generate self dark ls ta = Ok m ->
  (name, color) ∈ COLORS r -> -3 <= n <= 3 ->
  let s' := (ls / 1.5)%float in
  (dark = true /\ (name = "primary" \/ name = "secondary") ->
     is_dark_shade dark name = true /\
     m !! (name +:+ shade_suffix n) =
       Some (hex (clamped (blend (blend (r_background r) color 0.12) WHITE
                                 (s' + float_of_int n * (s' / 2))%float)))) /\
  (~ (dark = true /\ (name = "primary" \/ name = "secondary")) ->
     is_dark_shade dark name = false /\
     m !! (name +:+ shade_suffix n) =
       Some (hex (lighten color (float_of_int n * (ls / 2))%float))).
Proof.
  intros Hr Hm Hc Hn s'.
  apply generate_Ok in Hm as (r' & Hr' & ->).
  assert (r' = r) as -> by congruence.
  apply elem_of_shade_points in Hn.
  destruct (expand_lookup r dark ls ta name color n Hc Hn) as (Hk & _).
  rewrite Hk. unfold shade_color, spread_of, shade_of, delta_of.
  pose proof (is_dark_shade_spec dark name) as Hspec.
  destruct (is_dark_shade dark name).
  - split; [intros _; split; [reflexivity|]; by rewrite dark_weight|].
    intros Hnot. destruct Hnot. by apply Hspec.
  - split; [|intros _; split; reflexivity].
    intros Hd. apply Hspec in Hd. discriminate Hd.
Qed.



(** C5. For every shade colour [c] stored under key [k], the entry [text-k]
    is the hex form of the contrasting text colour of [c] at [text_alpha],
    and for [fade_index] 1 and 2 the entry [text-k-fade-fade_index] is the
    hex form of that text colour blended towards [c] with ratio
    [fade_index * 0.1 + 0.15], which is 0.25 and 0.35. *)
Theorem text_and_fade_rule (self : ColorSystem) (dark : bool) (ls ta : float)
    (r : resolved Color) (m : gmap string string) (name : string) (color : Color) (n : Z) :
  resolve self dark = Ok r -> generate self dark ls ta = Ok m ->
  (name, color) ∈ COLORS r -> -3 <= n <= 3 ->
  let k := name +:+ shade_suffix n in
  let c := shade_color r dark ls name color n in
  let text_color := get_contrast_text c ta in
  m !! k = Some (hex c) /\
  m !! ("text-" +:+ k) = Some (hex text_color) /\
  (forall fade_index, fade_index = 1 \/ fade_index = 2 ->
     m !! ("text-" +:+ k +:+ "-fade-" +:+ str fade_index) =
       Some (hex (blend text_color c (float_of_int fade_index * 0.1 + 0.15)%float))) /\
  (float_of_int 1 * 0.1 + 0.15 = 0.25)%float /\
  (float_of_int 2 * 0.1 + 0.15 = 0.35)%float.
Proof.
  intros Hr Hm Hc Hn%elem_of_shade_points k c text_color.
  apply generate_Ok in Hm as (r' & Hr' & ->).
  assert (r' = r) as -> by congruence.
  destruct (expand_lookup r dark ls ta name color n Hc Hn) as (Hk & Ht & Hf1 & Hf2).
  split; [exact Hk|]. split; [exact Ht|].
  split; [|exact fade_ratios].
  intros fade_index [-> | ->]; [exact Hf1|exact Hf2].
Qed.

(** C6. [generate] either returns the complete palette, the nine colours
    having been resolved, or raises the parse failure met while resolving
    them, one of the strings read there being rejected by [Color.parse];
    the loops that fill the palette raise nothing.  With colour strings
    that all parse, [generate] returns. *)
Theorem no_partial_palette (self : ColorSystem) (dark : bool) (ls ta : float) :
  ((exists r m, resolve self dark = Ok r /\ generate self dark ls ta = Ok m /\
      m = expand r dark ls ta /\ size m = 252%nat /\
      forall k, k ∈ generated_names -> is_Some (m !! k)) \/
   (exists text, resolve self dark = Raise (ColorParseError text) /\
      generate self dark ls ta = Raise (ColorParseError text) /\
      parse text = None /\ read_by_resolve self dark text)) /\
  (valid_theme self = true -> defaults_parse = true ->
     exists m, generate self dark ls ta = Ok m).
Proof.
  split.
  - destruct (resolve self dark) as [r|e] eqn:Hr.
    + left. exists r, (expand r dark ls ta).
      split; [reflexivity|]. split; [apply generate_Ok; eauto|].
      split; [reflexivity|]. split; [apply expand_size|].
      intros k Hk. by apply expand_keys.
    + right. destruct (resolve_Raise _ _ _ Hr) as (text & -> & Hnone & Hread).
      exists text. split; [reflexivity|]. split; [by apply generate_Raise|].
      by split.
  - intros Hv Hd. destruct (resolve_valid self dark Hv Hd) as [r Hr].
    exists (expand r dark ls ta). apply generate_Ok. eauto.
Qed.

(** C7. [__init__] stores its arguments without parsing them, whatever the
    strings are; reading a field raises the parse failure exactly when the
    string of that field is malformed, whatever the other fields hold. *)
Theorem construction_never_parses (primary : string)
    (secondary warning error success accent1 accent2 background surface : option string) :
  let obj :=
    __init__ primary secondary warning error success accent1 accent2 background surface in
  _primary obj = primary /\
  getattr obj Secondary = secondary /\ getattr obj Warning = warning /\
  getattr obj Error = error /\ getattr obj Success = success /\
  getattr obj Accent1 = accent1 /\ getattr obj Accent2 = accent2 /\
  getattr obj Background = background /\ getattr obj Surface = surface /\
  (primary_get obj = Raise (ColorParseError primary) <-> parse primary = None) /\
  (forall c, primary_get obj = Ok c <-> parse primary = Some c) /\
  (forall a text,
     ColorProperty_get a obj = Raise (ColorParseError text) <->
     getattr obj a = Some text /\ parse text = None) /\
  (forall a, raises (ColorProperty_get a obj) = false <->
     getattr obj a = None \/ exists text c, getattr obj a = Some text /\ parse text = Some c).
Proof.
  intros obj. do 9 (split; [reflexivity|]).
  unfold primary_get, ColorProperty_get, Color_parse.
  change (_primary obj) with primary. clearbody obj.
  split; [|split; [|split]].
  - destruct (parse primary); split; intros H; (discriminate H || reflexivity).
  - intros c. destruct (parse primary); split; intros H; (discriminate H || congruence).
  - intros a text. destruct (getattr obj a) as [s|]; [|split; [discriminate|by intros [? _]]].
    destruct (parse s) eqn:Hs; cbn; split.
    + discriminate.
    + intros [[= ->] Hnone]. congruence.
    + intros [= ->]. by split.
    + intros [[= ->] _]. reflexivity.
  - intros a. destruct (getattr obj a) as [s|]; [|split; auto].
    destruct (parse s) eqn:Hs; cbn; split.
    + intros _. right. eauto.
    + reflexivity.
    + discriminate.
    + intros [|(text & c & [= <-] & Hc)]; [discriminate|congruence].
Qed.

(** C8, as amended.  Reading an attribute, reading [shades] and calling
    [generate] leave the object as it is, and assigning to [primary] raises
    [AttributeError] and changes nothing; but assigning to one of the eight
    optional attributes replaces the string stored for it (by the css form
    when a colour is assigned), the other attributes keeping theirs. *)
Theorem assignment_effect (op : operation Color) (obj : ColorSystem) :
  match op with
  | AssignField a v =>
      perform op obj = (setattr obj a (stored v), None) /\
      getattr (perform op obj).1 a = stored v /\
      (forall b, b <> a -> getattr (perform op obj).1 b = getattr obj b) /\
      _primary (perform op obj).1 = _primary obj
  | AssignPrimary v => perform op obj = (obj, Some (AttributeError "primary"))
  | _ => (perform op obj).1 = obj
  end.
Proof.
  destruct op as [|a| |dark ls ta|v|a v]; try reflexivity.
  cbn [perform fst]. unfold ColorProperty_set.
  assert (setattr obj a (stored v) =
    match v with
    | VColor c => setattr obj a (Some (css c))
    | VStr s => setattr obj a (Some s)
    | VNone => setattr obj a None
    end) as <- by (by destruct v).
  generalize (stored v). intros raw. destruct obj as [p s w e u a1 a2 b f].
  split; [reflexivity|]. split; [by destruct a|]. split; [|by destruct a].
  intros b' Hne. destruct a, b'; try reflexivity; by destruct Hne.
Qed.

(** Every value of the mapping returned by [generate] is the hex form of a
    colour: whatever holds of all hex forms holds of all values. *)
Lemma generate_values (P : string -> Prop) (self : ColorSystem) (dark : bool)
    (ls ta : float) (m : gmap string string) :
  (forall c : Color, P (hex c)) ->
  generate self dark ls ta = Ok m ->
  forall k v, m !! k = Some v -> P v.
Proof.
  intros Hhex Hm k v Hk.
  apply generate_Ok in Hm as (r & _ & ->).
  exact (expand_values P r dark ls ta Hhex k v Hk).
Qed.

(** With a zero spread every luminosity delta is a zero. *)
Lemma zero_spread_delta (ls : float) (n : Z) :
  (ls =? 0)%float = true -> -3 <= n <= 3 ->
  delta_of ls n = 0%float \/ delta_of ls n = (-0)%float.
Proof.
  intros Hls Hn%elem_of_shade_points. vm_compute in Hn.
  repeat (apply elem_of_cons in Hn as [->|Hn]); [..|by apply elem_of_nil in Hn];
    destruct (float_eqb_zero ls Hls) as [-> | ->]; vm_compute; auto.
Qed.

(** C10. With [luminosity_spread = 0] and the dark rule off for a name, the
    seven shade entries of that name are all the hex form of
    [lighten color 0] ([lighten] not distinguishing the two float zeros),
    and the text entry and the two fade entries agree across the seven
    shades. *)
Theorem zero_spread_collapse (self : ColorSystem) (dark : bool) (ls ta : float)
    (r : resolved Color) (m : gmap string string) (name : string) (color : Color) :
  resolve self dark = Ok r -> generate self dark ls ta = Ok m ->
  (name, color) ∈ COLORS r -> is_dark_shade dark name = false ->
  (ls =? 0)%float = true ->
  lighten color (-0)%float = lighten color 0%float ->
  forall n n', -3 <= n <= 3 -> -3 <= n' <= 3 ->
    let k := name +:+ shade_suffix n in
    let k' := name +:+ shade_suffix n' in
    m !! k = Some (hex (lighten color 0%float)) /\
    m !! k = m !! k' /\
    m !! ("text-" +:+ k) = m !! ("text-" +:+ k') /\
    (forall fade_index, fade_index = 1 \/ fade_index = 2 ->
       m !! ("text-" +:+ k +:+ "-fade-" +:+ str fade_index) =
       m !! ("text-" +:+ k' +:+ "-fade-" +:+ str fade_index)).
Proof.
  intros Hr Hm Hc Hd Hls Hsign n n' Hn Hn' k k'.
  apply generate_Ok in Hm as (r' & Hr' & ->).
  assert (r' = r) as -> by congruence.
  assert (forall i, -3 <= i <= 3 ->
    shade_color r dark ls name color i = lighten color 0%float) as Hshade.
  { intros i Hi. unfold shade_color, spread_of, shade_of. rewrite Hd.
    destruct (zero_spread_delta ls i Hls Hi) as [-> | ->]; [reflexivity|exact Hsign]. }
  destruct (expand_lookup r dark ls ta name color n Hc
    (proj2 (elem_of_shade_points n) Hn)) as (Hk & Ht & Hf1 & Hf2).
  destruct (expand_lookup r dark ls ta name color n' Hc
    (proj2 (elem_of_shade_points n') Hn')) as (Hk' & Ht' & Hf1' & Hf2').
  rewrite (Hshade n Hn) in Hk, Ht, Hf1, Hf2.
  rewrite (Hshade n' Hn') in Hk', Ht', Hf1', Hf2'.
  fold k in Hk, Ht, Hf1, Hf2. fold k' in Hk', Ht', Hf1', Hf2'.
  split; [exact Hk|]. split; [by rewrite Hk, Hk'|]. split; [by rewrite Ht, Ht'|].
  intros fade_index [-> | ->]; [by rewrite Hf1, Hf1'|by rewrite Hf2, Hf2'].
Qed.

End palette.

(** * Further properties of [design.py] *)

Section more.
Context {Color : Type} `{!ColorAPI Color}.

#[local] Opaque expand.

(** ** Descriptors *)

Lemma getattr_setattr (obj : ColorSystem) (a : attr) (raw : option string) :
  getattr (setattr obj a raw) a = raw.
Proof. by destruct obj, a. Qed.

Lemma getattr_setattr_ne (obj : ColorSystem) (a b : attr) (raw : option string) :
  b <> a -> getattr (setattr obj a raw) b = getattr obj b.
Proof. intros Hne. destruct obj, a, b; try reflexivity; by destruct Hne. Qed.

Lemma primary_setattr (obj : ColorSystem) (a : attr) (raw : option string) :
  _primary (setattr obj a raw) = _primary obj.
Proof. by destruct obj, a. Qed.

Lemma ColorProperty_set_stored (a : attr) (obj : ColorSystem) (v : value Color) :
  ColorProperty_set a obj v = setattr obj a (stored v).
Proof. by destruct v. Qed.

(** X1. Reading an attribute after assigning to it parses what was
    assigned: the string itself, the css form of a colour, or nothing for
    [None]; so a colour whose css form parses back to it is read back
    unchanged.  The other attributes and [primary] read as before. *)
Theorem read_after_write (a : attr) (obj : ColorSystem) (v : value Color) :
  ColorProperty_get a (ColorProperty_set a obj v) =
    match v with
    | VColor c => Some <$> Color_parse (css c)
    | VStr s => Some <$> Color_parse s
    | VNone => Ok None
    end /\
  (forall c, v = VColor c -> parse (css c) = Some c ->
     ColorProperty_get a (ColorProperty_set a obj v) = Ok (Some c)) /\
  (forall b, b <> a ->
     ColorProperty_get b (ColorProperty_set a obj v) = ColorProperty_get b obj) /\
  primary_get (ColorProperty_set a obj v) = primary_get obj.
Proof.
  rewrite ColorProperty_set_stored. unfold ColorProperty_get, primary_get.
  rewrite getattr_setattr, primary_setattr.
  split; [by destruct v|]. split; [|split; [|reflexivity]].
  - intros c -> Hc. cbn. unfold Color_parse. by rewrite Hc.
  - intros b Hne. by rewrite getattr_setattr_ne.
Qed.

(** X2. Assignments compose as writes to independent slots: on one
    attribute the last assignment wins, assignments to different attributes
    commute, and assigning to an attribute the string it already holds (or
    [None] when it is unset) changes nothing. *)
Theorem writes_compose (a b : attr) (obj : ColorSystem) (v w : value Color) :
  ColorProperty_set a (ColorProperty_set a obj v) w = ColorProperty_set a obj w /\
  (a <> b ->
     ColorProperty_set a (ColorProperty_set b obj v) w =
     ColorProperty_set b (ColorProperty_set a obj w) v) /\
  (forall s, getattr obj a = Some s -> ColorProperty_set a obj (VStr s) = obj) /\
  (getattr obj a = None -> ColorProperty_set a obj VNone = obj).
Proof.
  rewrite !ColorProperty_set_stored.
  generalize (stored v) (stored w). intros x y.
  destruct obj as [p s0 w0 e u a1 a2 b0 f].
  split; [by destruct a|]. split; [|split].
  - intros Hne. destruct a, b; try reflexivity; by destruct Hne.
  - intros s Hs. cbn [ColorProperty_set]. destruct a; cbn in *; by rewrite Hs.
  - intros Hs. cbn [ColorProperty_set]. destruct a; cbn in *; by rewrite Hs.
Qed.

(** X3. No run of public operations changes [primary]: the stored string
    and what the property reads are those of the initial object. *)
Theorem primary_is_invariant (ops : list (operation Color)) (obj : ColorSystem) :
  _primary (perform_all ops obj) = _primary obj /\
  primary_get (perform_all ops obj) = primary_get obj.
Proof.
  assert (_primary (perform_all ops obj) = _primary obj) as Hp.
  { unfold perform_all. revert obj. induction ops as [|op ops IH]; intros obj; [done|].
    cbn [foldl]. rewrite IH.
    destruct op as [|a| |dark ls ta|v|a v]; try reflexivity.
    cbn [perform fst]. by rewrite ColorProperty_set_stored, primary_setattr. }
  split; [exact Hp|]. unfold primary_get. by rewrite Hp.
Qed.

(** ** Which exception [generate] raises *)

Lemma first_malformed_None (l : list string) :
  first_malformed l = None <-> Forall (fun s => parses s = true) l.
Proof.
  induction l as [|s l IH]; cbn; [by split; [constructor|]|].
  destruct (parses s) eqn:Hs.
  - rewrite IH. split; [by constructor|by inversion 1].
  - split; [discriminate|]. inversion 1; congruence.
Qed.

Lemma first_malformed_Some (l : list string) (text : string) :
  first_malformed l = Some text <->
  exists l1 l2, l = (l1 ++ text :: l2)%list /\ Forall (fun s => parses s = true) l1 /\
    parses text = false.
Proof.
  induction l as [|s l IH]; cbn.
  - split; [discriminate|]. intros (l1 & l2 & Hl & _). by destruct l1.
  - destruct (parses s) eqn:Hs.
    + rewrite IH. split.
      * intros (l1 & l2 & -> & Hl1 & Ht). exists (s :: l1), l2. by repeat constructor.
      * intros (l1 & l2 & Hl & Hl1 & Ht). destruct l1 as [|s' l1].
        -- cbn in Hl. injection Hl as <- _. congruence.
        -- cbn in Hl. injection Hl as <- ->. inversion Hl1; subst. eauto.
    + split.
      * intros [= <-]. exists [], l. by repeat constructor.
      * intros (l1 & l2 & Hl & Hl1 & Ht). destruct l1 as [|s' l1].
        -- cbn in Hl. by injection Hl as <- _.
        -- cbn in Hl. injection Hl as <- ->. inversion Hl1; subst. congruence.
Qed.

Lemma resolve_exception (self : ColorSystem) (dark : bool) :
  exception_of (resolve self dark) = ColorParseError <$> first_malformed (reads self dark).
Proof.
  destruct self as [p s w e u a1 a2 b f].
  unfold reads, resolve, primary_get, ColorProperty_get, Color_parse, mret, result_ret.
  cbn.
  change (if dark then DEFAULT_DARK_BACKGROUND else _) with (default_background dark).
  change (if dark then DEFAULT_DARK_SURFACE else _) with (default_surface dark).
  generalize (default_background dark) (default_surface dark). intros db df.
  unfold parses; destruct (parse p); cbn; [|reflexivity].
  all: destruct s as [s|]; cbn; try unfold parses; [destruct (parse s)|]; cbn;
    try reflexivity.
  all: destruct w as [w|]; cbn; try unfold parses; [destruct (parse w)|]; cbn;
    try reflexivity.
  all: destruct e as [e|]; cbn; try unfold parses; [destruct (parse e)|]; cbn;
    try reflexivity.
  all: destruct u as [u|]; cbn; try unfold parses; [destruct (parse u)|]; cbn;
    try reflexivity.
  all: destruct a1 as [a1|]; cbn; try unfold parses; [destruct (parse a1)|]; cbn;
    try reflexivity.
  all: destruct a2 as [a2|]; cbn; try unfold parses; [destruct (parse a2)|]; cbn;
    try reflexivity.
  all: destruct b as [b|]; cbn; try unfold parses; [destruct (parse b)|destruct (parse db)];
    cbn; try reflexivity.
  all: destruct f as [f|]; cbn; try unfold parses; [destruct (parse f)|destruct (parse df)];
    cbn; reflexivity.
Qed.

(** X4. [generate] raises exactly when one of the strings it reads is
    rejected by [Color.parse], and the exception names the first such string
    in reading order: [primary], then [secondary], [warning], [error],
    [success], [accent1], [accent2] when set, then [background] and
    [surface] or their defaults.  A default is not parsed when the field is
    set, and neither argument of the shade expansion plays a part. *)
Theorem generate_exception (self : ColorSystem) (dark : bool) (ls ta : float) :
  exception_of (generate self dark ls ta) =
    ColorParseError <$> first_malformed (reads self dark) /\
  (raises (generate self dark ls ta) = false <->
     Forall (fun s => parses s = true) (reads self dark)) /\
  (forall text,
     generate self dark ls ta = Raise (ColorParseError text) <->
     exists l1 l2, reads self dark = (l1 ++ text :: l2)%list /\
       Forall (fun s => parses s = true) l1 /\ parses text = false).
Proof.
  assert (exception_of (generate self dark ls ta) =
    ColorParseError <$> first_malformed (reads self dark)) as Hexn.
  { rewrite <- resolve_exception, generate_unfold. by destruct (resolve self dark). }
  split; [exact Hexn|]. split.
  - rewrite <- first_malformed_None.
    destruct (generate self dark ls ta), (first_malformed (reads self dark));
      cbn in *; split; congruence.
  - intros text. rewrite <- first_malformed_Some.
    destruct (generate self dark ls ta), (first_malformed (reads self dark));
      cbn in *; split; congruence.
Qed.

(** X5. Assigning a string that [Color.parse] rejects to any of the eight
    optional attributes succeeds, and makes every later call of [generate]
    raise a parse failure, whatever the mode: [generate] reads every
    attribute. *)
Theorem malformed_assignment_breaks_generate (a : attr) (obj : ColorSystem) (s : string)
    (dark : bool) (ls ta : float) :
  parse s = None ->
  perform (AssignField a (VStr s)) obj = (ColorProperty_set a obj (VStr s), None) /\
  exists text,
    generate (ColorProperty_set a obj (VStr s)) dark ls ta = Raise (ColorParseError text) /\
    parse text = None.
Proof.
  intros Hs. split; [reflexivity|].
  assert (exception_of (generate (ColorProperty_set a obj (VStr s)) dark ls ta) =
    ColorParseError <$> first_malformed (reads (ColorProperty_set a obj (VStr s)) dark))
    as Hexn.
  { rewrite <- resolve_exception, generate_unfold. by destruct (resolve _ dark). }
  destruct (first_malformed (reads (ColorProperty_set a obj (VStr s)) dark))
    as [text|] eqn:Hfirst.
  - destruct (generate _ dark ls ta) as [m|e]; [discriminate Hexn|].
    injection Hexn as ->. exists text. split; [reflexivity|].
    apply first_malformed_Some in Hfirst as (_ & _ & _ & _ & Ht).
    unfold parses in Ht. by destruct (parse text).
  - exfalso. apply first_malformed_None in Hfirst.
    assert (s ∈ reads (ColorProperty_set a obj (VStr s)) dark) as Hin.
    { destruct obj as [p s0 w0 e u a1 a2 b0 f].
      destruct a; cbn; unfold reads; cbn;
        rewrite ?elem_of_cons, ?elem_of_app, ?elem_of_cons; auto 20. }
    pose proof (proj1 (Forall_forall _ _) Hfirst s Hin) as Hp.
    unfold parses in Hp. by rewrite Hs in Hp.
Qed.

(** ** The names and deltas of the shades *)

Lemma SFmul_opp_l (x y : spec_float) : SF64mul (SFopp x) y = SFopp (SF64mul x y).
Proof.
  unfold SF64mul, SFmul, SFopp.
  destruct x as [sx|sx| |sx mx ex], y as [sy|sy| |sy my ey]; try reflexivity.
  all: try (destruct sx, sy; reflexivity).
  unfold binary_round_aux.
  destruct (shr_fexp _ _ _ _ _) as [mrs' e'].
  destruct (shr_fexp _ _ _ _ _) as [mrs'' e''].
  destruct (shr_m mrs''); try reflexivity.
  - destruct sx, sy; reflexivity.
  - destruct (Z.leb _ _); destruct sx, sy; reflexivity.
Qed.

Lemma float_mul_opp_l (x y : float) : (- x * y = - (x * y))%float.
Proof.
  apply Prim2SF_inj.
  rewrite FloatAxioms.opp_spec, !FloatAxioms.mul_spec, FloatAxioms.opp_spec.
  apply SFmul_opp_l.
Qed.

(** X6. The [shades] property and the generator [luminosity_range] build
    the same names: whatever the spread, [shades] is, for each colour name
    in order, that name followed by each suffix of [luminosity_range]; and
    the 63 names are pairwise distinct. *)
Theorem shades_follow_luminosity_range (spread : float) :
  shades =
    (name ← COLOR_NAMES;
     (fun '(shade_name, _) => name +:+ shade_name) <$> luminosity_range spread) /\
  NoDup shades.
Proof.
  split; [vm_compute; reflexivity|].
  apply (bool_decide_unpack _). vm_compute. exact I.
Qed.

(** X7. [luminosity_range] yields seven pairs, from [-darken-3] to
    [-lighten-3] with the empty suffix in the middle, and the delta of
    [-darken-n] is exactly the negation of the delta [n * (spread / 2)] of
    [-lighten-n], for every float [spread]. *)
Theorem luminosity_range_mirror (spread : float) :
  let step := (spread / 2)%float in
  luminosity_range spread =
    [("-darken-3", - (3 * step)); ("-darken-2", - (2 * step));
     ("-darken-1", - (1 * step)); ("", 0 * step);
     ("-lighten-1", 1 * step); ("-lighten-2", 2 * step);
     ("-lighten-3", 3 * step)]%float.
Proof.
  intros step. rewrite <- !float_mul_opp_l. subst step.
  vm_compute. reflexivity.
Qed.

(** ** What the entries of a colour name depend on *)

Lemma shade_entries_expand (r : resolved Color) (dark : bool) (ls ta : float)
    (name : string) (color : Color) (n : Z) :
  (name, color) ∈ COLORS r -> -3 <= n <= 3 ->
  let c := shade_color r dark ls name color n in
  let t := get_contrast_text c ta in
  shade_entries (expand r dark ls ta) name n =
    [Some (hex c); Some (hex t); Some (hex (blend t c 0.25));
     Some (hex (blend t c 0.35))].
Proof.
  intros Hc Hn%elem_of_shade_points c t.
  destruct (expand_lookup r dark ls ta name color n Hc Hn) as (Hk & Ht & Hf1 & Hf2).
  destruct fade_ratios as [H1 H2]. rewrite H1 in Hf1. rewrite H2 in Hf2.
  unfold shade_entries, shade_keys, names_of_shade. cbn [fmap list_fmap].
  f_equal; [exact Hk|]. f_equal; [exact Ht|]. f_equal; [exact Hf1|].
  f_equal. exact Hf2.
Qed.

Lemma shade_color_agree (r r' : resolved Color) (dark dark' : bool) (ls : float)
    (name name' : string) (color : Color) (n : Z) :
  is_dark_shade dark name = is_dark_shade dark' name' ->
  (is_dark_shade dark name = true -> r_background r = r_background r') ->
  shade_color r dark ls name color n = shade_color r' dark' ls name' color n.
Proof.
  intros Hd Hb. unfold shade_color, spread_of, shade_of. rewrite <- Hd.
  destruct (is_dark_shade dark name); [|reflexivity]. by rewrite Hb.
Qed.

Lemma shade_entries_agree (r r' : resolved Color) (dark dark' : bool) (ls ta : float)
    (name name' : string) (color : Color) (n : Z) :
  (name, color) ∈ COLORS r -> (name', color) ∈ COLORS r' -> -3 <= n <= 3 ->
  is_dark_shade dark name = is_dark_shade dark' name' ->
  (is_dark_shade dark name = true -> r_background r = r_background r') ->
  shade_entries (expand r dark ls ta) name n =
  shade_entries (expand r' dark' ls ta) name' n.
Proof.
  intros Hc Hc' Hn Hd Hb.
  rewrite (shade_entries_expand r dark ls ta name color n Hc Hn).
  rewrite (shade_entries_expand r' dark' ls ta name' color n Hc' Hn).
  by rewrite (shade_color_agree r r' dark dark' ls name name' color n Hd Hb).
Qed.

Lemma COLORS_elem_of (r : resolved Color) (name : string) :
  name ∈ COLOR_NAMES -> exists color, (name, color) ∈ COLORS r.
Proof.
  rewrite <- (COLORS_names r). intros ([name' color] & -> & Hin)%list_elem_of_fmap.
  eauto.
Qed.

(** X8. [text_alpha] has no part in the shade colours: two calls of
    [generate] that differ only in [text_alpha] agree on the 63 entries
    named by [shades]; [text_alpha] only reaches the [text-] entries. *)
Theorem shades_ignore_text_alpha (self : ColorSystem) (dark : bool) (ls ta ta' : float)
    (m m' : gmap string string) (s : string) :
  generate self dark ls ta = Ok m -> generate self dark ls ta' = Ok m' ->
  s ∈ shades -> m !! s = m' !! s.
Proof.
  intros (r & Hr & ->)%generate_Ok (r' & Hr' & ->)%generate_Ok Hs.
  assert (r' = r) as -> by congruence.
  apply elem_of_shades in Hs as (name & n & Hname & Hn & ->).
  destruct (COLORS_elem_of r name Hname) as [color Hc].
  destruct (expand_lookup r dark ls ta name color n Hc Hn) as (-> & _).
  destruct (expand_lookup r dark ls ta' name color n Hc Hn) as (-> & _).
  reflexivity.
Qed.

(** X9. The values of a colour name depend on the name only through its
    colour and through whether the dark rule applies to it: two names of
    [COLORS] that carry the same colour and are both dark-tinted or both
    plain have, shade by shade, the same four values. *)
Theorem same_colour_same_entries (self : ColorSystem) (dark : bool) (ls ta : float)
    (r : resolved Color) (m : gmap string string) (name name' : string) (color : Color)
    (n : Z) :
  resolve self dark = Ok r -> generate self dark ls ta = Ok m ->
  (name, color) ∈ COLORS r -> (name', color) ∈ COLORS r ->
  is_dark_shade dark name = is_dark_shade dark name' -> -3 <= n <= 3 ->
  shade_entries m name n = shade_entries m name' n.
Proof.
  intros Hr (r' & Hr' & ->)%generate_Ok Hc Hc' Hd Hn.
  assert (r' = r) as -> by congruence.
  by apply shade_entries_agree with color.
Qed.

Lemma COLORS_intro (r : resolved Color) :
  ("primary", r_primary r) ∈ COLORS r /\ ("secondary", r_secondary r) ∈ COLORS r /\
  ("background", r_background r) ∈ COLORS r /\ ("surface", r_surface r) ∈ COLORS r /\
  ("warning", r_warning r) ∈ COLORS r /\ ("error", r_error r) ∈ COLORS r /\
  ("success", r_success r) ∈ COLORS r /\ ("accent1", r_accent1 r) ∈ COLORS r /\
  ("accent2", r_accent2 r) ∈ COLORS r.
Proof. unfold COLORS. repeat split; repeat constructor. Qed.

(** X10. An unset colour copies the entries of the colour it falls back
    to.  With [secondary] unset its values are those of [primary] in both
    modes; in light mode an unset [warning] or [accent1] has the values of
    [primary], and an unset [error], [success] or [accent2] those of
    [secondary]. *)
Theorem unset_colours_copy_entries (self : ColorSystem) (dark : bool) (ls ta : float)
    (m : gmap string string) (n : Z) :
  generate self dark ls ta = Ok m -> -3 <= n <= 3 ->
  (_secondary self = None ->
     shade_entries m "secondary" n = shade_entries m "primary" n) /\
  (dark = false ->
     (_warning self = None ->
        shade_entries m "warning" n = shade_entries m "primary" n) /\
     (_accent1 self = None ->
        shade_entries m "accent1" n = shade_entries m "primary" n) /\
     (_error self = None ->
        shade_entries m "error" n = shade_entries m "secondary" n) /\
     (_success self = None ->
        shade_entries m "success" n = shade_entries m "secondary" n) /\
     (_accent2 self = None ->
        shade_entries m "accent2" n = shade_entries m "secondary" n)).
Proof.
  intros (r & Hr & ->)%generate_Ok Hn.
  apply resolve_Ok in Hr as (Hp & Hs & Hw & He & Hu & Ha1 & Ha2 & Hb & Hf).
  destruct (COLORS_intro r) as (Cp & Cs & Cb & Cf & Cw & Ce & Cu & Ca1 & Ca2).
  split; [|intros ->; split; [|split; [|split; [|split]]]].
  - intros E. rewrite E in Hs. injection Hs as Hs. rewrite <- Hs in Cs.
    by apply shade_entries_agree with (r_primary r).
  - intros E. rewrite E in Hw. injection Hw as Hw. rewrite <- Hw in Cw.
    by apply shade_entries_agree with (r_primary r).
  - intros E. rewrite E in Ha1. injection Ha1 as Ha1. rewrite <- Ha1 in Ca1.
    by apply shade_entries_agree with (r_primary r).
  - intros E. rewrite E in He. injection He as He. rewrite <- He in Ce.
    by apply shade_entries_agree with (r_secondary r).
  - intros E. rewrite E in Hu. injection Hu as Hu. rewrite <- Hu in Cu.
    by apply shade_entries_agree with (r_secondary r).
  - intros E. rewrite E in Ha2. injection Ha2 as Ha2. rewrite <- Ha2 in Ca2.
    by apply shade_entries_agree with (r_secondary r).
Qed.

Lemma plain_name_not_dark (dark : bool) (name : string) :
  name <> "primary" -> name <> "secondary" -> is_dark_shade dark name = false.
Proof.
  intros Hp Hs. destruct (is_dark_shade dark name) eqn:Hd; [|reflexivity].
  apply is_dark_shade_spec in Hd as [_ [?|?]]; contradiction.
Qed.

(** The entries of each colour name, compared between two resolutions. *)
Lemma entries_by_field (r r' : resolved Color) (dark dark' : bool) (ls ta : float) (n : Z) :
  -3 <= n <= 3 ->
  let same name :=
    shade_entries (expand r dark ls ta) name n =
    shade_entries (expand r' dark' ls ta) name n in
  (dark = dark' -> (dark = true -> r_background r = r_background r') ->
     (r_primary r = r_primary r' -> same "primary") /\
     (r_secondary r = r_secondary r' -> same "secondary")) /\
  (r_background r = r_background r' -> same "background") /\
  (r_surface r = r_surface r' -> same "surface") /\
  (r_warning r = r_warning r' -> same "warning") /\
  (r_error r = r_error r' -> same "error") /\
  (r_success r = r_success r' -> same "success") /\
  (r_accent1 r = r_accent1 r' -> same "accent1") /\
  (r_accent2 r = r_accent2 r' -> same "accent2").
Proof.
  intros Hn same. subst same.
  destruct (COLORS_intro r) as (Cp & Cs & Cb & Cf & Cw & Ce & Cu & Ca1 & Ca2).
  destruct (COLORS_intro r') as (Cp' & Cs' & Cb' & Cf' & Cw' & Ce' & Cu' & Ca1' & Ca2').
  assert (forall name color, name <> "primary" -> name <> "secondary" ->
    (name, color) ∈ COLORS r -> (name, color) ∈ COLORS r' ->
    shade_entries (expand r dark ls ta) name n =
    shade_entries (expand r' dark' ls ta) name n) as Hplain.
  { intros name color Hp Hs Hc Hc'.
    apply shade_entries_agree with color; try assumption.
    - by rewrite !plain_name_not_dark.
    - rewrite plain_name_not_dark by assumption. discriminate. }
  split; [|split; [|split; [|split; [|split; [|split; [|split]]]]]].
  - intros <- Hb. split; intros Heq.
    + rewrite <- Heq in Cp'. apply shade_entries_agree with (r_primary r); try assumption.
      * reflexivity.
      * intros Hd. apply Hb. by apply is_dark_shade_spec in Hd as [-> _].
    + rewrite <- Heq in Cs'. apply shade_entries_agree with (r_secondary r); try assumption.
      * reflexivity.
      * intros Hd. apply Hb. by apply is_dark_shade_spec in Hd as [-> _].
  - intros Heq. rewrite <- Heq in Cb'. by apply Hplain with (r_background r).
  - intros Heq. rewrite <- Heq in Cf'. by apply Hplain with (r_surface r).
  - intros Heq. rewrite <- Heq in Cw'. by apply Hplain with (r_warning r).
  - intros Heq. rewrite <- Heq in Ce'. by apply Hplain with (r_error r).
  - intros Heq. rewrite <- Heq in Cu'. by apply Hplain with (r_success r).
  - intros Heq. rewrite <- Heq in Ca1'. by apply Hplain with (r_accent1 r).
  - intros Heq. rewrite <- Heq in Ca2'. by apply Hplain with (r_accent2 r).
Qed.

Lemma field_resolves_fun (raw : option string) (fb fb' : option Color) (c c' : Color) :
  field_resolves raw fb c -> field_resolves raw fb' c' -> (raw = None -> fb = fb') ->
  c = c'.
Proof.
  destruct raw as [s|]; cbn; intros H1 H2 Hfb; [congruence|].
  specialize (Hfb eq_refl). congruence.
Qed.

(** X11. Dark mode leaves the plain colours alone: for [warning], [error],
    [success], [accent1] and [accent2] the dark and the light palette of a
    theme hold the same values, and so they do for [background] and for
    [surface] when that field is set.  Only [primary], [secondary] and the
    built-in defaults depend on the mode. *)
Theorem dark_mode_leaves_plain_colours (self : ColorSystem) (ls ta : float)
    (m m' : gmap string string) (n : Z) :
  generate self true ls ta = Ok m -> generate self false ls ta = Ok m' ->
  -3 <= n <= 3 ->
  (forall name, name ∈ ["warning"; "error"; "success"; "accent1"; "accent2"] ->
     shade_entries m name n = shade_entries m' name n) /\
  (is_Some (_background self) ->
     shade_entries m "background" n = shade_entries m' "background" n) /\
  (is_Some (_surface self) ->
     shade_entries m "surface" n = shade_entries m' "surface" n).
Proof.
  intros (r & Hr & ->)%generate_Ok (r' & Hr' & ->)%generate_Ok Hn.
  apply resolve_Ok in Hr as (Hp & Hs & Hw & He & Hu & Ha1 & Ha2 & Hb & Hf).
  apply resolve_Ok in Hr' as (Hp' & Hs' & Hw' & He' & Hu' & Ha1' & Ha2' & Hb' & Hf').
  assert (r_primary r = r_primary r') as Ep by congruence.
  assert (r_secondary r = r_secondary r') as Es
    by (apply (field_resolves_fun _ _ _ _ _ Hs Hs'); congruence).
  assert (r_warning r = r_warning r') as Ew
    by (apply (field_resolves_fun _ _ _ _ _ Hw Hw'); congruence).
  assert (r_error r = r_error r') as Ee
    by (apply (field_resolves_fun _ _ _ _ _ He He'); congruence).
  assert (r_success r = r_success r') as Eu
    by (apply (field_resolves_fun _ _ _ _ _ Hu Hu'); congruence).
  assert (r_accent1 r = r_accent1 r') as Ea1
    by (apply (field_resolves_fun _ _ _ _ _ Ha1 Ha1'); congruence).
  assert (r_accent2 r = r_accent2 r') as Ea2
    by (apply (field_resolves_fun _ _ _ _ _ Ha2 Ha2'); congruence).
  destruct (entries_by_field r r' true false ls ta n Hn)
    as (_ & Sb & Sf & Sw & Se & Su & Sa1 & Sa2).
  split; [|split].
  - intros name Hname.
    repeat (apply elem_of_cons in Hname as [->|Hname]);
      [exact (Sw Ew)|exact (Se Ee)|exact (Su Eu)|exact (Sa1 Ea1)|exact (Sa2 Ea2)|].
    apply elem_of_nil in Hname. destruct Hname.
  - intros [s Hset]. apply Sb. apply (field_resolves_fun _ _ _ _ _ Hb Hb').
    rewrite Hset. discriminate.
  - intros [s Hset]. apply Sf. apply (field_resolves_fun _ _ _ _ _ Hf Hf').
    rewrite Hset. discriminate.
Qed.

(** The colours resolved after an assignment, compared with those before. *)
Lemma resolve_after_setattr (a : attr) (obj : ColorSystem) (raw : option string)
    (dark : bool) (r r' : resolved Color) :
  resolve obj dark = Ok r -> resolve (setattr obj a raw) dark = Ok r' ->
  a <> Secondary ->
  r_primary r' = r_primary r /\ r_secondary r' = r_secondary r /\
  (a <> Background -> r_background r' = r_background r) /\
  (a <> Surface -> r_surface r' = r_surface r) /\
  (a <> Warning -> r_warning r' = r_warning r) /\
  (a <> Error -> r_error r' = r_error r) /\
  (a <> Success -> r_success r' = r_success r) /\
  (a <> Accent1 -> r_accent1 r' = r_accent1 r) /\
  (a <> Accent2 -> r_accent2 r' = r_accent2 r).
Proof.
  intros Hr Hr' Hsec.
  apply resolve_Ok in Hr as (Hp & Hs & Hw & He & Hu & Ha1 & Ha2 & Hb & Hf).
  apply resolve_Ok in Hr' as (Hp' & Hs' & Hw' & He' & Hu' & Ha1' & Ha2' & Hb' & Hf').
  destruct obj as [p s w e u a1 a2 b f].
  destruct a; [exfalso; by apply Hsec|..]; cbn in Hp', Hs', Hw', He', Hu', Ha1', Ha2', Hb', Hf';
    cbn in Hp, Hs, Hw, He, Hu, Ha1, Ha2, Hb, Hf.
  all: assert (r_primary r' = r_primary r) as Ep by congruence.
  all: assert (r_secondary r' = r_secondary r) as Es
    by (apply (field_resolves_fun _ _ _ _ _ Hs' Hs); congruence).
  all: split; [exact Ep|]; split; [exact Es|].
  all: split; [intros Hne; try (exfalso; by apply Hne);
                 apply (field_resolves_fun _ _ _ _ _ Hb' Hb); congruence|].
  all: split; [intros Hne; try (exfalso; by apply Hne);
                 apply (field_resolves_fun _ _ _ _ _ Hf' Hf); congruence|].
  all: split; [intros Hne; try (exfalso; by apply Hne);
                 apply (field_resolves_fun _ _ _ _ _ Hw' Hw); congruence|].
  all: split; [intros Hne; try (exfalso; by apply Hne);
                 apply (field_resolves_fun _ _ _ _ _ He' He); congruence|].
  all: split; [intros Hne; try (exfalso; by apply Hne);
                 apply (field_resolves_fun _ _ _ _ _ Hu' Hu); congruence|].
  all: split; [intros Hne; try (exfalso; by apply Hne);
                 apply (field_resolves_fun _ _ _ _ _ Ha1' Ha1); congruence|].
  all: intros Hne; try (exfalso; by apply Hne);
    apply (field_resolves_fun _ _ _ _ _ Ha2' Ha2); congruence.
Qed.

(** X12. An assignment changes the palette only where the assigned colour
    is used.  After assigning to an attribute other than [secondary] (and,
    in dark mode, other than [background]), every colour name other than
    the attribute's own keeps, shade by shade, its four values. *)
Theorem assignment_is_local (a : attr) (obj : ColorSystem) (v : value Color)
    (dark : bool) (ls ta : float) (m m' : gmap string string) (name : string) (n : Z) :
  a <> Secondary -> (a = Background -> dark = false) ->
  generate obj dark ls ta = Ok m ->
  generate (ColorProperty_set a obj v) dark ls ta = Ok m' ->
  name ∈ COLOR_NAMES -> name <> attr_name a -> -3 <= n <= 3 ->
  shade_entries m' name n = shade_entries m name n.
Proof.
  intros Hsec Hbg (r & Hr & ->)%generate_Ok (r' & Hr' & ->)%generate_Ok Hname Hne Hn.
  rewrite ColorProperty_set_stored in Hr'.
  destruct (resolve_after_setattr a obj (stored v) dark r r' Hr Hr' Hsec)
    as (Ep & Es & Eb & Ef & Ew & Ee & Eu & Ea1 & Ea2).
  destruct (entries_by_field r' r dark dark ls ta n Hn)
    as (Sdark & Sb & Sf & Sw & Se & Su & Sa1 & Sa2).
  assert (dark = true -> r_background r' = r_background r) as Hback.
  { intros Hd. apply Eb. intros Ha. rewrite (Hbg Ha) in Hd. discriminate Hd. }
  destruct (Sdark eq_refl Hback) as [Sp Ss].
  unfold COLOR_NAMES in Hname.
  repeat (apply elem_of_cons in Hname as [->|Hname]).
  - exact (Sp Ep).
  - exact (Ss Es).
  - apply Sb, Eb. intros ->. apply Hne. reflexivity.
  - apply Sf, Ef. intros ->. apply Hne. reflexivity.
  - apply Sw, Ew. intros ->. apply Hne. reflexivity.
  - apply Se, Ee. intros ->. apply Hne. reflexivity.
  - apply Su, Eu. intros ->. apply Hne. reflexivity.
  - apply Sa1, Ea1. intros ->. apply Hne. reflexivity.
  - apply Sa2, Ea2. intros ->. apply Hne. reflexivity.
  - apply elem_of_nil in Hname. destruct Hname.
Qed.

(** ** Rendering *)

Lemma mapM_Returned {A B : Type} (f : A -> outcome B) (l : list A) :
  (forall x, x ∈ l -> exists y, f x = Returned y) ->
  exists ys, mapM f l = Returned ys /\ length ys = length l /\
    forall i x, l !! i = Some x -> exists y, ys !! i = Some y /\ f x = Returned y.
Proof.
  induction l as [|x l IH]; intros Hf.
  - exists []. repeat split. intros i x Hi. by destruct i.
  - destruct (Hf x) as [y Hy]; [by left|].
    destruct IH as (ys & Hys & Hlen & Hnth); [intros x' Hx'; apply Hf; by right|].
    exists (y :: ys). cbn. rewrite Hy. cbn. rewrite Hys. cbn.
    split; [reflexivity|]. split; [by rewrite Hlen|].
    intros [|i] x' Hi; cbn in *; [injection Hi as <-; eauto|by apply Hnth].
Qed.

Ltac run_make_shade :=
  unfold make_shade, getitem; change (range 0 3) with [0; 1; 2];
  repeat progress
    (cbn [mbind outcome_bind mret outcome_ret for_each Z.eqb];
     change ("-fade-" +:+ str 1) with "-fade-1";
     change ("-fade-" +:+ str 2) with "-fade-2";
     repeat match goal with H : _ !! _ = _ |- _ => rewrite H end).

Lemma make_shade_Returned (colors : gmap string string) (name : string) :
  (forall k, k ∈ names_of_shade name -> is_Some (colors !! k)) ->
  exists row, make_shade colors name = Returned row.
Proof.
  intros Hk. unfold names_of_shade in Hk.
  destruct (Hk name) as [v Hv]; [by repeat constructor|].
  destruct (Hk ("text-" +:+ name)) as [t Ht]; [by repeat constructor|].
  destruct (Hk ("text-" +:+ name +:+ "-fade-1")) as [f1 Hf1]; [by repeat constructor|].
  destruct (Hk ("text-" +:+ name +:+ "-fade-2")) as [f2 Hf2]; [by repeat constructor|].
  clear Hk. run_make_shade. eexists. reflexivity.
Qed.

(** X13. One row of the colour table.  With the entries of a shade name
    and of its three text names present, [make_shade] returns a padding of
    1 around a text that starts with the shade's value and repeats the name
    three times, in the plain and the two faded text colours, all on the
    shade as background; the style of the padding itself is the last
    colour read, the second fade.  A missing entry raises [KeyError] for
    the first key missing in the order shade, text, fade 1, fade 2. *)
Theorem make_shade_spec (colors : gmap string string) (name : string) :
  make_shade colors name =
    match colors !! name, colors !! ("text-" +:+ name),
          colors !! ("text-" +:+ name +:+ "-fade-1"),
          colors !! ("text-" +:+ name +:+ "-fade-2") with
    | None, _, _, _ => Raised (KeyError name)
    | Some _, None, _, _ => Raised (KeyError ("text-" +:+ name))
    | Some _, Some _, None, _ => Raised (KeyError ("text-" +:+ name +:+ "-fade-1"))
    | Some _, Some _, Some _, None =>
        Raised (KeyError ("text-" +:+ name +:+ "-fade-2"))
    | Some background, Some foreground, Some fade1, Some fade2 =>
        Returned
          {| padding_renderable :=
               {| text_text := background +:+ " ";
                  text_style := foreground +:+ " on " +:+ background;
                  text_spans :=
                    [(name +:+ " ", foreground +:+ " on " +:+ background);
                     (name +:+ " ", fade1 +:+ " on " +:+ background);
                     (name +:+ " ", fade2 +:+ " on " +:+ background)] |};
             padding_pad := 1;
             padding_style := fade2 +:+ " on " +:+ background |}
    end.
Proof.
  destruct (colors !! name) as [background|] eqn:Hbg; [|by run_make_shade].
  destruct (colors !! ("text-" +:+ name)) as [foreground|] eqn:Hfg;
    [|by run_make_shade].
  destruct (colors !! ("text-" +:+ name +:+ "-fade-1")) as [fade1|] eqn:Hf1;
    [|by run_make_shade].
  destruct (colors !! ("text-" +:+ name +:+ "-fade-2")) as [fade2|] eqn:Hf2;
    by run_make_shade.
Qed.

Lemma make_shades_yields_Ok (self : ColorSystem) (dark : bool)
    (colors : gmap string string) :
  generate self dark 0.15 0.9 = Ok colors ->
  exists rows, make_shades_yields self dark = Returned rows /\ length rows = 63%nat /\
    forall i name, shades !! i = Some name ->
      exists row, rows !! i = Some row /\ make_shade colors name = Returned row.
Proof.
  intros Hgen. unfold make_shades_yields. rewrite Hgen.
  apply generate_Ok in Hgen as (r & _ & ->).
  destruct (mapM_Returned (make_shade (expand r dark 0.15 0.9)) shades)
    as (rows & Hrows & Hlen & Hnth).
  - intros name Hname. apply make_shade_Returned.
    intros k Hk. apply expand_keys. by apply names_of_shade_generated with name.
  - exists rows. split; [exact Hrows|]. split; [by rewrite Hlen|exact Hnth].
Qed.

Lemma make_shades_Raise (self : ColorSystem) (dark : bool) (e : exn) :
  generate self dark 0.15 0.9 = Raise e -> make_shades self dark = Raised (FromGenerate e).
Proof. intros Hgen. unfold make_shades, make_shades_yields. by rewrite Hgen. Qed.

(** X14. Rendering never misses a key.  [__rich__] raises exactly when one
    of its two calls of [generate] does, with the exception of the light
    call when that one raises and of the dark call otherwise, and it never
    raises [KeyError].  When both calls return, [__rich__] returns the table
    with the columns [Light] and [Dark] and one row of two groups, each of
    one padding per name of [shades], 63 in all and in that order, the
    padding [make_shade] builds for that name from the light and from the
    dark palette. *)
Theorem rich_never_misses_a_key (self : ColorSystem) :
  (forall key, __rich__ self <> Raised (KeyError key)) /\
  (forall e, generate self false 0.15 0.9 = Raise e ->
     __rich__ self = Raised (FromGenerate e)) /\
  (forall light e, generate self false 0.15 0.9 = Ok light ->
     generate self true 0.15 0.9 = Raise e ->
     __rich__ self = Raised (FromGenerate e)) /\
  (forall light dark, generate self false 0.15 0.9 = Ok light ->
     generate self true 0.15 0.9 = Ok dark ->
     exists l d,
       __rich__ self = Returned
         {| table_box := None; table_expand := true;
            table_columns := [("Light", "center"); ("Dark", "center")];
            table_rows := [[ {| group_renderables := l; group_fit := true |};
                             {| group_renderables := d; group_fit := true |} ]] |} /\
       length l = 63%nat /\ length d = 63%nat /\
       forall i name, shades !! i = Some name ->
         (exists row, l !! i = Some row /\ make_shade light name = Returned row) /\
         (exists row, d !! i = Some row /\ make_shade dark name = Returned row)).
Proof.
  assert (forall e, generate self false 0.15 0.9 = Raise e ->
    __rich__ self = Raised (FromGenerate e)) as Hlight.
  { intros e Hgen. unfold __rich__. by rewrite (make_shades_Raise _ _ _ Hgen). }
  assert (forall light, generate self false 0.15 0.9 = Ok light ->
    exists l, make_shades self false =
      Returned {| group_renderables := l; group_fit := true |} /\ length l = 63%nat /\
      forall i name, shades !! i = Some name ->
        exists row, l !! i = Some row /\ make_shade light name = Returned row) as Hfirst.
  { intros light Hgen.
    destruct (make_shades_yields_Ok _ _ _ Hgen) as (l & Hl & Hlen & Hnth).
    exists l. unfold make_shades. rewrite Hl. by repeat split. }
  assert (forall light e, generate self false 0.15 0.9 = Ok light ->
    generate self true 0.15 0.9 = Raise e ->
    __rich__ self = Raised (FromGenerate e)) as Hdark.
  { intros light e Hgen Hgen'.
    destruct (Hfirst light Hgen) as (l & Hl & _).
    unfold __rich__. rewrite Hl, (make_shades_Raise _ _ _ Hgen'). reflexivity. }
  assert (forall light dark, generate self false 0.15 0.9 = Ok light ->
    generate self true 0.15 0.9 = Ok dark ->
    exists l d,
      __rich__ self = Returned
        {| table_box := None; table_expand := true;
           table_columns := [("Light", "center"); ("Dark", "center")];
           table_rows := [[ {| group_renderables := l; group_fit := true |};
                            {| group_renderables := d; group_fit := true |} ]] |} /\
      length l = 63%nat /\ length d = 63%nat /\
      forall i name, shades !! i = Some name ->
        (exists row, l !! i = Some row /\ make_shade light name = Returned row) /\
        (exists row, d !! i = Some row /\ make_shade dark name = Returned row)) as Hboth.
  { intros light dark Hgen Hgen'.
    destruct (Hfirst light Hgen) as (l & Hl & Hlen & Hnth).
    destruct (make_shades_yields_Ok _ _ _ Hgen') as (d & Hd & Hlen' & Hnth').
    exists l, d. unfold __rich__. rewrite Hl. unfold make_shades. rewrite Hd.
    split; [reflexivity|]. split; [exact Hlen|]. split; [exact Hlen'|].
    intros i name Hi. split; [by apply Hnth|by apply Hnth']. }
  split; [|split; [exact Hlight|split; [exact Hdark|exact Hboth]]].
  intros key Hkey.
  destruct (generate self false 0.15 0.9) as [light|e] eqn:Hgen;
    [|rewrite (Hlight e eq_refl) in Hkey; discriminate Hkey].
  destruct (generate self true 0.15 0.9) as [dark|e] eqn:Hgen';
    [|rewrite (Hdark light e eq_refl eq_refl) in Hkey; discriminate Hkey].
  destruct (Hboth light dark eq_refl eq_refl) as (l & d & Hrich & _).
  rewrite Hrich in Hkey. discriminate Hkey.
Qed.

(** ** Assignments that keep [generate] working *)

Lemma valid_theme_intro (self : ColorSystem) :
  parses (_primary self) = true ->
  (forall a s, getattr self a = Some s -> parses s = true) ->
  valid_theme self = true.
Proof.
  intros Hp Ha. unfold valid_theme. rewrite Hp. cbn [andb].
  apply forallb_forall. intros a _.
  destruct (getattr self a) as [s|] eqn:Hs; [by apply (Ha a)|reflexivity].
Qed.

(** X15. Assigning a value that parses keeps a working theme working: if
    every string of the object and the four defaults parse, then after
    assigning [None], a string that parses, or a colour whose css form
    parses, to any of the eight attributes, [generate] still returns a
    palette, in both modes. *)
Theorem valid_assignment_keeps_generate (a : attr) (obj : ColorSystem) (v : value Color)
    (dark : bool) (ls ta : float) :
  valid_theme obj = true -> defaults_parse = true ->
  (forall s, stored v = Some s -> parses s = true) ->
  valid_theme (ColorProperty_set a obj v) = true /\
  exists m, generate (ColorProperty_set a obj v) dark ls ta = Ok m.
Proof.
  intros [Hp Ha]%valid_theme_spec Hd Hv.
  assert (valid_theme (ColorProperty_set a obj v) = true) as Hvalid.
  { rewrite ColorProperty_set_stored. apply valid_theme_intro.
    - by rewrite primary_setattr.
    - intros b s. destruct (decide (b = a)) as [->|Hne].
      + rewrite getattr_setattr. apply Hv.
      + rewrite getattr_setattr_ne by done. apply Ha. }
  split; [exact Hvalid|].
  destruct (resolve_valid _ dark Hvalid Hd) as [r Hr].
  exists (expand r dark ls ta). apply generate_Ok. eauto.
Qed.

End more.

(** * The reference implementation at work *)

#[local] Existing Instance RGB.api.

Example resolve_demo_light : resolve demo_theme false = Ok demo_light.
Proof. vm_compute. reflexivity. Qed.

Example resolve_demo_dark : resolve demo_theme true = Ok demo_dark.
Proof. vm_compute. reflexivity. Qed.

Example resolve_primary_only : resolve primary_only false = Ok primary_only_light.
Proof. vm_compute. reflexivity. Qed.

Example generate_demo_primary :
  (fun m => m !! "primary") <$> generate demo_theme false 0.15 0.9 = Ok (Some "#005ea8").
Proof. vm_compute. reflexivity. Qed.

Example generate_broken :
  generate broken_theme false 0.15 0.9 = Raise (ColorParseError "not-a-colour").
Proof. vm_compute. reflexivity. Qed.

Lemma hex_digit_ok (d : Z) : 0 <= d < 16 -> is_hex_digit (RGB.hex_digit d) = true.
Proof.
  intros Hd. assert (d ∈ seqZ 0 16) as Hin by (apply elem_of_seqZ; lia).
  vm_compute in Hin.
  repeat (apply elem_of_cons in Hin as [->|Hin]); try reflexivity.
  by apply elem_of_nil in Hin.
Qed.

Lemma clamp_channel_range (v : Z) : 0 <= RGB.clamp_channel v <= 255.
Proof. unfold RGB.clamp_channel. lia. Qed.

Lemma hex_byte_ok (v : Z) :
  0 <= v <= 255 ->
  exists d1 d2, RGB.hex_byte v = String d1 (String d2 EmptyString) /\
    is_hex_digit d1 = true /\ is_hex_digit d2 = true.
Proof.
  intros Hv. exists (RGB.hex_digit (v / 16)), (RGB.hex_digit (v mod 16)).
  split; [reflexivity|]. split; apply hex_digit_ok.
  - split; [apply Z.div_pos; lia|apply Z.div_lt_upper_bound; lia].
  - apply Z.mod_pos_bound. lia.
Qed.

Lemma is_rrggbb_intro (d1 d2 d3 d4 d5 d6 : ascii) :
  is_hex_digit d1 = true -> is_hex_digit d2 = true -> is_hex_digit d3 = true ->
  is_hex_digit d4 = true -> is_hex_digit d5 = true -> is_hex_digit d6 = true ->
  is_rrggbb (String "#" (String d1 (String d2 (String d3 (String d4
    (String d5 (String d6 EmptyString))))))) = true.
Proof.
  intros H1 H2 H3 H4 H5 H6. unfold is_rrggbb.
  change (forallb is_hex_digit [d1; d2; d3; d4; d5; d6] = true).
  cbn [forallb]. by rewrite H1, H2, H3, H4, H5, H6.
Qed.

(** The hex form of the reference implementation is [#rrggbb]. *)
Lemma RGB_hex_rrggbb (c : RGB.t) : is_rrggbb (hex c) = true.
Proof.
  destruct c as [r g b]. cbn [hex RGB.api]. unfold RGB.hex, RGB.clamped.
  cbn [RGB.red RGB.green RGB.blue].
  destruct (hex_byte_ok _ (clamp_channel_range r)) as (r1 & r2 & -> & Hr1 & Hr2).
  destruct (hex_byte_ok _ (clamp_channel_range g)) as (g1 & g2 & -> & Hg1 & Hg2).
  destruct (hex_byte_ok _ (clamp_channel_range b)) as (b1 & b2 & -> & Hb1 & Hb2).
  by apply is_rrggbb_intro.
Qed.

(** C9. Every value of the mapping returned by [generate] is a string
    [#rrggbb], a hash sign followed by six hexadecimal digits, the [text-]
    and [-fade-] entries included; the hex form is the one the
    specification gives to [Color]. *)
Theorem palette_values_hex (self : ColorSystem) (dark : bool) (ls ta : float)
    (m : gmap string string) :
  generate (Color:=RGB.t) self dark ls ta = Ok m ->
  forall k v, m !! k = Some v -> is_rrggbb v = true.
Proof.
  intros Hm. exact (generate_values (fun v => is_rrggbb v = true)
    self dark ls ta m RGB_hex_rrggbb Hm).
Qed.

Lemma generate_demo (dark : bool) (ls ta : float) :
  generate demo_theme dark ls ta =
  Ok (expand (if dark then demo_dark else demo_light) dark ls ta).
Proof.
  rewrite generate_unfold.
  destruct dark; [rewrite resolve_demo_dark|rewrite resolve_demo_light]; reflexivity.
Qed.

(** ** The suffix-less entry of a plain colour *)









(** The palette of [demo_theme] in dark mode has 252 entries. *)
Lemma generate_complete_witness :
  exists m : gmap string string,
    generate demo_theme true 0.15 0.9 = Ok m /\ size m = 252%nat /\
    (forall k, is_Some (m !! k) <-> k ∈ generated_names).
Proof.
  assert (valid_theme demo_theme = true) as Hv by (vm_compute; reflexivity).
  assert (defaults_parse = true) as Hd by (vm_compute; reflexivity).
  destruct (generate_complete demo_theme true 0.15 0.9 Hv Hd)
    as (m & Hm & Hsize & _ & _ & _ & _ & Hkeys & _).
  exists m. split; [exact Hm|]. split; [exact Hsize|exact Hkeys].
Defined.

(** With only [primary] set, the other six semantic colours are [primary]. *)
Lemma fallback_resolution_witness :
  resolve primary_only false = Ok primary_only_light /\
  r_secondary primary_only_light = r_primary primary_only_light /\
  r_warning primary_only_light = r_primary primary_only_light /\
  r_accent1 primary_only_light = r_primary primary_only_light /\
  r_error primary_only_light = r_primary primary_only_light /\
  r_success primary_only_light = r_primary primary_only_light /\
  r_accent2 primary_only_light = r_primary primary_only_light.
Proof.
  assert (resolve primary_only false = Ok primary_only_light) as Hr
    by (vm_compute; reflexivity).
  split; [exact Hr|].
  destruct (fallback_resolution primary_only false 0.15 0.9 primary_only_light Hr)
    as (_ & _ & _ & _ & _ & _ & _ & _ & _ & _ & Hall).
  exact (Hall eq_refl eq_refl eq_refl eq_refl eq_refl eq_refl).
Defined.

(** [primary-lighten-2] of [demo_theme] in dark mode follows the dark rule. *)
Lemma dark_shade_rule_witness :
  expand demo_dark true 0.15 0.9 !! "primary-lighten-2" =
    Some (hex (clamped (blend (blend (RGB.mk 0 0 0) (RGB.mk 0 94 168) 0.12) WHITE
                              (0.15 / 1.5 + float_of_int 2 * (0.15 / 1.5 / 2))%float))).
Proof.
  assert (("primary", RGB.mk 0 94 168) ∈ COLORS demo_dark) as Hc by (by left).
  assert (-3 <= 2 <= 3) as Hn by lia.
  destruct (dark_shade_rule demo_theme true 0.15 0.9 demo_dark
    (expand demo_dark true 0.15 0.9) "primary" (RGB.mk 0 94 168) 2
    resolve_demo_dark (generate_demo true _ _) Hc Hn) as [Hdark _].
  destruct Hdark as [_ Hdark]; [split; [reflexivity|by left]|].
  exact Hdark.
Defined.


(** The text entries of [error-darken-1] of [demo_theme] in light mode. *)
Lemma text_and_fade_rule_witness :
  let c := lighten (RGB.mk 198 40 40) (float_of_int (-1) * (0.15 / 2))%float in
  let m := expand demo_light false 0.15 0.9 in
  m !! "error-darken-1" = Some (hex c) /\
  m !! "text-error-darken-1" = Some (hex (get_contrast_text c 0.9)) /\
  m !! "text-error-darken-1-fade-2" =
    Some (hex (blend (get_contrast_text c 0.9) c 0.35)).
Proof.
  intros c m.
  assert (("error", RGB.mk 198 40 40) ∈ COLORS demo_light) as Hc
    by (do 5 right; left).
  assert (-3 <= -1 <= 3) as Hn by lia.
  destruct (text_and_fade_rule demo_theme false 0.15 0.9 demo_light m
    "error" (RGB.mk 198 40 40) (-1)
    resolve_demo_light (generate_demo false _ _) Hc Hn) as (Hk & Ht & Hfade & _ & _).
  split; [exact Hk|]. split; [exact Ht|]. exact (Hfade 2 (or_intror eq_refl)).
Defined.

(** Every value of the palette of [demo_theme] has the form [#rrggbb]. *)
Lemma palette_values_hex_witness :
  exists v, expand demo_light false 0.15 0.9 !! "text-primary-fade-1" = Some v /\
    is_rrggbb v = true.
Proof.
  assert (is_Some (expand demo_light false 0.15 0.9 !! "text-primary-fade-1")) as [v Hv].
  { apply expand_keys. apply (bool_decide_unpack _). vm_compute. exact I. }
  exists v. split; [exact Hv|].
  exact (palette_values_hex demo_theme false 0.15 0.9 _
    (generate_demo false _ _) _ _ Hv).
Defined.

(** With a zero spread the seven shades of [warning] coincide. *)
Lemma zero_spread_collapse_witness :
  let m := expand demo_light false 0 0.9 in
  m !! "warning-darken-3" = Some (hex (lighten (RGB.mk 255 160 0) 0%float)) /\
  m !! "warning-darken-3" = m !! "warning-lighten-2" /\
  m !! "text-warning-darken-3" = m !! "text-warning-lighten-2" /\
  m !! "text-warning-darken-3-fade-1" = m !! "text-warning-lighten-2-fade-1".
Proof.
  intros m.
  assert (("warning", RGB.mk 255 160 0) ∈ COLORS demo_light) as Hc
    by (do 4 right; left).
  assert (-3 <= -3 <= 3) as Hn by lia.
  assert (-3 <= 2 <= 3) as Hn' by lia.
  assert (is_dark_shade false "warning" = false) as Hplain by (vm_compute; reflexivity).
  assert ((0 =? 0)%float = true) as Hls by (vm_compute; reflexivity).
  assert (lighten (RGB.mk 255 160 0) (-0)%float = lighten (RGB.mk 255 160 0) 0%float)
    as Hzeros by (vm_compute; reflexivity).
  destruct (zero_spread_collapse demo_theme false 0 0.9 demo_light m
    "warning" (RGB.mk 255 160 0)
    resolve_demo_light (generate_demo false _ _) Hc Hplain Hls Hzeros (-3) 2 Hn Hn')
    as (Hk & Heq & Ht & Hfade).
  split; [exact Hk|]. split; [exact Heq|]. split; [exact Ht|].
  exact (Hfade 1 (or_introl eq_refl)).
Defined.

(** C8, as stated, fails: assigning to [secondary] changes the field. *)
Lemma fields_not_read_only :
  let obj := primary_only in
  let obj' := (perform (AssignField Secondary (VStr "#ff0000")) obj).1 in
  obj' <> obj /\
  ColorProperty_get Secondary obj = Ok None /\
  ColorProperty_get Secondary obj' = Ok (Some (RGB.mk 255 0 0)).
Proof. split; [discriminate|]. split; vm_compute; reflexivity. Qed.


(** ** The further properties at work *)

(** A malformed colour makes [__rich__] raise: no table is returned. *)
Example rich_broken :
  __rich__ broken_theme = Raised (FromGenerate (ColorParseError "not-a-colour")).
Proof. vm_compute. reflexivity. Qed.

Lemma generate_primary_only (ls ta : float) :
  generate primary_only false ls ta = Ok (expand primary_only_light false ls ta).
Proof. rewrite generate_unfold, resolve_primary_only. reflexivity. Qed.

Lemma generate_rewarned (ls ta : float) :
  generate (ColorProperty_set Warning demo_theme (VStr "#112233")) true ls ta =
  Ok (expand demo_dark_rewarned true ls ta).
Proof.
  apply generate_Ok. exists demo_dark_rewarned. split; [|reflexivity].
  vm_compute. reflexivity.
Qed.

(** After [accent1] is given a malformed string, [generate] raises. *)
Lemma malformed_assignment_witness :
  exists text,
    generate (ColorProperty_set (Color:=RGB.t) Accent1 demo_theme (VStr "not-a-colour"))
      true 0.15 0.9 = Raise (ColorParseError text) /\
    parse (Color:=RGB.t) text = None.
Proof.
  assert (parse (Color:=RGB.t) "not-a-colour" = None) as Hs by (vm_compute; reflexivity).
  exact (proj2 (malformed_assignment_breaks_generate Accent1 demo_theme
    "not-a-colour" true 0.15 0.9 Hs)).
Defined.

(** [primary-lighten-1] of [demo_theme] is the same at two text alphas. *)
Lemma shades_ignore_text_alpha_witness :
  expand demo_light false 0.15 0.9 !! "primary-lighten-1" =
  expand demo_light false 0.15 0.5 !! "primary-lighten-1".
Proof.
  assert ("primary-lighten-1" ∈ shades) as Hs
    by (apply (bool_decide_unpack _); vm_compute; exact I).
  exact (shades_ignore_text_alpha demo_theme false 0.15 0.9 0.5 _ _ "primary-lighten-1"
    (generate_demo false _ _) (generate_demo false _ _) Hs).
Defined.

(** In the light palette of [primary_only], [warning] has the values of
    [primary]. *)
Lemma same_colour_same_entries_witness :
  shade_entries (expand primary_only_light false 0.15 0.9) "warning" 2 =
  shade_entries (expand primary_only_light false 0.15 0.9) "primary" 2.
Proof.
  assert (("warning", RGB.mk 0 94 168) ∈ COLORS primary_only_light) as Hc
    by (do 4 right; left).
  assert (("primary", RGB.mk 0 94 168) ∈ COLORS primary_only_light) as Hc'
    by left.
  assert (is_dark_shade false "warning" = is_dark_shade false "primary") as Hd
    by (vm_compute; reflexivity).
  assert (-3 <= 2 <= 3) as Hn by lia.
  exact (same_colour_same_entries primary_only false 0.15 0.9 primary_only_light _
    "warning" "primary" (RGB.mk 0 94 168) 2
    resolve_primary_only (generate_primary_only _ _) Hc Hc' Hd Hn).
Defined.

(** In the light palette of [primary_only], the unset [error] has the
    values of [secondary]. *)
Lemma unset_colours_copy_entries_witness :
  shade_entries (expand primary_only_light false 0.15 0.9) "error" (-1) =
  shade_entries (expand primary_only_light false 0.15 0.9) "secondary" (-1).
Proof.
  assert (-3 <= -1 <= 3) as Hn by lia.
  destruct (unset_colours_copy_entries primary_only false 0.15 0.9 _ (-1)
    (generate_primary_only _ _) Hn) as [_ Hlight].
  destruct (Hlight eq_refl) as (_ & _ & He & _).
  exact (He eq_refl).
Defined.

(** [success] of [demo_theme] has the same values in both modes. *)
Lemma dark_mode_leaves_plain_colours_witness :
  shade_entries (expand demo_dark true 0.15 0.9) "success" 1 =
  shade_entries (expand demo_light false 0.15 0.9) "success" 1.
Proof.
  assert (-3 <= 1 <= 3) as Hn by lia.
  destruct (dark_mode_leaves_plain_colours demo_theme 0.15 0.9 _ _ 1
    (generate_demo true _ _) (generate_demo false _ _) Hn) as [Hplain _].
  apply Hplain. do 2 right. left.
Defined.

(** Reassigning [warning] leaves the values of [primary] as they were. *)
Lemma assignment_is_local_witness :
  shade_entries (expand demo_dark_rewarned true 0.15 0.9) "primary" 0 =
  shade_entries (expand demo_dark true 0.15 0.9) "primary" 0.
Proof.
  assert (Warning <> Secondary) as Hsec by discriminate.
  assert (Warning = Background -> true = false) as Hbg by discriminate.
  assert ("primary" ∈ COLOR_NAMES) as Hname by left.
  assert ("primary" <> attr_name Warning) as Hne by discriminate.
  assert (-3 <= 0 <= 3) as Hn by lia.
  exact (assignment_is_local Warning demo_theme (VStr "#112233") true 0.15 0.9 _ _
    "primary" 0 Hsec Hbg (generate_demo true _ _) (generate_rewarned _ _)
    Hname Hne Hn).
Defined.

(** After [surface] is given a well-formed string, [generate] returns. *)
Lemma valid_assignment_witness :
  exists m,
    generate (ColorProperty_set (Color:=RGB.t) Surface demo_theme (VStr "#112233"))
      false 0.15 0.9 = Ok m.
Proof.
  assert (valid_theme (Color:=RGB.t) demo_theme = true) as Hv by (vm_compute; reflexivity).
  assert (defaults_parse (Color:=RGB.t) = true) as Hd by (vm_compute; reflexivity).
  assert (forall s, stored (Color:=RGB.t) (VStr "#112233") = Some s -> parses s = true)
    as Hs by (intros s [= <-]; vm_compute; reflexivity).
  exact (proj2 (valid_assignment_keeps_generate Surface demo_theme (VStr "#112233")
    false 0.15 0.9 Hv Hd Hs)).
Defined.
